(** * roc-go-lab: a one-shot RPC client and server over TCP

    A shallow embedding of [src/server.go] and [src/client.go] and the
    properties of the request/response protocol they implement.

    Conventions of the embedding.
    - A Go [string] is a sequence of bytes: Rocq's [string] (a list of 8-bit
      [ascii]).  Text is UTF-8; conversions [[]rune(s)] and [string(r)] are
      the language's UTF-8 decoder and encoder, written out below.
    - Go's [int] and [time.Duration] are 64-bit two's complement integers
      (the programs are built for 64-bit hosts): a [Z] with the wrap-around
      [wrap64] applied after every arithmetic operation.
    - A [float64] is a [spec_float] of the Standard Library.
    - [interface{}] is the tagged union [any]; [map[string]interface{}] is
      an optional [gmap] ([None] is the nil map).
    - The network, the clock and the random source are inputs of the
      functions that use them; what a function does to the outside world
      (writes, sleeps, process exit) is returned as a list of events. *)

Set Warnings "-register-all".
From Stdlib Require Import ZArith Lia List Ascii String SpecFloat QArith.
From Stdlib Require Import DecimalString.
From Stdlib Require DecimalPos.
From stdpp Require Import base gmap strings.
Import ListNotations.

Open Scope string_scope.
Open Scope Z_scope.
Open Scope list_scope.

(* ===================================================================== *)
(** ** Machine integers and bytes *)

Definition min_int64 : Z := - 2 ^ 63.
Definition max_int64 : Z := 2 ^ 63 - 1.

(** Two's complement wrap-around of a 64-bit signed operation. *)
Definition wrap64 (z : Z) : Z := (z + 2 ^ 63) mod 2 ^ 64 - 2 ^ 63.

Definition in_int64 (z : Z) : Prop := min_int64 <= z <= max_int64.

Definition in_int64b (z : Z) : bool := (min_int64 <=? z) && (z <=? max_int64).

Definition byte_val (c : ascii) : Z := Z.of_N (N_of_ascii c).

Definition byte_of (z : Z) : ascii := ascii_of_N (Z.to_N z).

(** A string from the numeric values of its bytes. *)
Definition bytes (l : list Z) : string :=
  string_of_list_ascii (map byte_of l).

(* ===================================================================== *)
(** ** UTF-8: the conversions between [string] and [[]rune]

    These are Go's [utf8.DecodeRuneInString] and [utf8.EncodeRune]; the bit
    masks and shifts of the library are written as the equivalent divisions
    by powers of 64. *)

Definition rune := Z.

Definition RuneError : rune := 0xFFFD.

Definition is_cont (b : Z) : bool := (0x80 <=? b) && (b <=? 0xBF).

(** The first rune of [s] and the number of bytes it occupies.  A byte that
    does not start a well-formed sequence decodes as [(RuneError, 1)]. *)
Definition DecodeRuneInString (s : string) : rune * nat :=
  match s with
  | EmptyString => (RuneError, 0%nat)
  | String c0 s1 =>
    let b0 := byte_val c0 in
    if b0 <? 0x80 then (b0, 1%nat)
    else if (0xC2 <=? b0) && (b0 <=? 0xDF) then
      match s1 with
      | String c1 _ =>
        let b1 := byte_val c1 in
        if is_cont b1
        then ((b0 - 0xC0) * 64 + (b1 - 0x80), 2%nat)
        else (RuneError, 1%nat)
      | _ => (RuneError, 1%nat)
      end
    else if (0xE0 <=? b0) && (b0 <=? 0xEF) then
      match s1 with
      | String c1 (String c2 _) =>
        let b1 := byte_val c1 in
        let b2 := byte_val c2 in
        let lo := if b0 =? 0xE0 then 0xA0 else 0x80 in
        let hi := if b0 =? 0xED then 0x9F else 0xBF in
        if (lo <=? b1) && (b1 <=? hi) && is_cont b2
        then (((b0 - 0xE0) * 64 + (b1 - 0x80)) * 64 + (b2 - 0x80), 3%nat)
        else (RuneError, 1%nat)
      | _ => (RuneError, 1%nat)
      end
    else if (0xF0 <=? b0) && (b0 <=? 0xF4) then
      match s1 with
      | String c1 (String c2 (String c3 _)) =>
        let b1 := byte_val c1 in
        let b2 := byte_val c2 in
        let b3 := byte_val c3 in
        let lo := if b0 =? 0xF0 then 0x90 else 0x80 in
        let hi := if b0 =? 0xF4 then 0x8F else 0xBF in
        if (lo <=? b1) && (b1 <=? hi) && is_cont b2 && is_cont b3
        then ((((b0 - 0xF0) * 64 + (b1 - 0x80)) * 64 + (b2 - 0x80)) * 64
              + (b3 - 0x80), 4%nat)
        else (RuneError, 1%nat)
      | _ => (RuneError, 1%nat)
      end
    else (RuneError, 1%nat)
  end.

(** [for _, r := range s]: the runes of [s] with their widths.  [skip] counts
    the bytes of the current rune still to be passed over. *)
Fixpoint decode_from (skip : nat) (s : string) : list (rune * nat) :=
  match s with
  | EmptyString => []
  | String _ s' =>
    match skip with
    | S k => decode_from k s'
    | O => let '(r, n) := DecodeRuneInString s in
           (r, n) :: decode_from (n - 1) s'
    end
  end.

(** [[]rune(s)] *)
Definition runes_of_string (s : string) : list rune :=
  map fst (decode_from 0 s).

(** [utf8.ValidString]: no byte decodes as an encoding error. *)
Definition ValidString (s : string) : bool :=
  forallb (fun p : rune * nat =>
             negb ((fst p =? RuneError) && Nat.eqb (snd p) 1))
          (decode_from 0 s).

(** [utf8.EncodeRune]: out-of-range runes and surrogates encode as
    [RuneError]. *)
Definition encode_rune (r : rune) : string :=
  if (0 <=? r) && (r <=? 0x7F) then bytes [r]
  else if (0 <=? r) && (r <=? 0x7FF) then
    bytes [0xC0 + r / 64; 0x80 + r mod 64]
  else if (r <? 0) || (0x10FFFF <? r) || ((0xD800 <=? r) && (r <=? 0xDFFF))
  then bytes [0xEF; 0xBF; 0xBD]
  else if r <=? 0xFFFF then
    bytes [0xE0 + r / 4096; 0x80 + (r / 64) mod 64; 0x80 + r mod 64]
  else
    bytes [0xF0 + r / 262144; 0x80 + (r / 4096) mod 64;
           0x80 + (r / 64) mod 64; 0x80 + r mod 64].

(** [string(r)] for [r : []rune] *)
Fixpoint string_of_runes (rs : list rune) : string :=
  match rs with
  | [] => ""
  | r :: rs' => encode_rune r +:+ string_of_runes rs'
  end.

(** A Unicode scalar value. *)
Definition scalar (r : rune) : Prop :=
  0 <= r <= 0x10FFFF /\ ~ (0xD800 <= r <= 0xDFFF).

(* ===================================================================== *)
(** ** Library functions the programs call *)

(** [unicode.IsSpace]: the code points with the White_Space property. *)
Definition IsSpace (r : rune) : bool :=
  existsb (Z.eqb r)
    [0x09; 0x0A; 0x0B; 0x0C; 0x0D; 0x20; 0x85; 0xA0;
     0x1680; 0x2028; 0x2029; 0x202F; 0x205F; 0x3000]
  || ((0x2000 <=? r) && (r <=? 0x200A)).

(** Total width of the white space runes at the front of a decoded string. *)
Fixpoint leading_space (l : list (rune * nat)) : nat :=
  match l with
  | (r, n) :: l' => if IsSpace r then (n + leading_space l')%nat else 0%nat
  | [] => 0%nat
  end.

Fixpoint drop_space (l : list (rune * nat)) : list (rune * nat) :=
  match l with
  | (r, n) :: l' => if IsSpace r then drop_space l' else l
  | [] => []
  end.

(** [strings.TrimSpace]: the slice [s[start:stop]] left after removing all
    leading and trailing white space runes. *)
Definition TrimSpace (s : string) : string :=
  let segs := decode_from 0 s in
  let start := leading_space segs in
  let trail := leading_space (rev (drop_space segs)) in
  substring start (String.length s - start - trail) s.

(** [strings.Map]: the runes of [s] mapped and encoded again, a negative
    result dropping the rune; an ill-formed byte counts as [RuneError]. *)
Definition Map (mapping : rune -> rune) (s : string) : string :=
  string_of_runes
    (List.filter (fun r => 0 <=? r) (map mapping (runes_of_string s))).

Section CaseTable.

(** [unicode.ToLower] on code points above U+007F is a table of the Unicode
    character database, which is not part of the repository: it is taken as
    a parameter. *)
Variable unicode_lower : rune -> rune.

Definition lower_rune (r : rune) : rune :=
  if r <=? 0x7F then
    (if (0x41 <=? r) && (r <=? 0x5A) then r + 0x20 else r)
  else unicode_lower r.

(** [strings.ToLower] is [strings.Map(unicode.ToLower, s)] (for a string
    of ASCII bytes, its byte loop does the same). *)
Definition ToLower (s : string) : string := Map lower_rune s.

End CaseTable.

Definition is_digit (b : Z) : bool := (0x30 <=? b) && (b <=? 0x39).

Fixpoint parse_digits (s : string) (acc : Z) : option Z :=
  match s with
  | EmptyString => Some acc
  | String c s' =>
    let b := byte_val c in
    if is_digit b then parse_digits s' (acc * 10 + (b - 0x30)) else None
  end.

(** [strconv.Atoi]: an optional sign and one or more decimal digits, the
    value within the range of [int]; [None] stands for a non-nil error. *)
Definition Atoi (s : string) : option Z :=
  match s with
  | EmptyString => None
  | String c s' =>
    let neg := Ascii.eqb c "-" in
    let digits := if neg || Ascii.eqb c "+" then s' else s in
    match digits with
    | EmptyString => None
    | _ =>
      match parse_digits digits 0 with
      | Some n => let v := if neg then - n else n in
                  if in_int64b v then Some v else None
      | None => None
      end
    end
  end.

(** [%d] of [fmt.Sprintf]. *)
Definition format_int (z : Z) : string :=
  NilZero.string_of_int (Z.to_int z).

(** The exact value of a finite [float64] with its fraction discarded. *)
Definition float64_trunc (f : spec_float) : option Z :=
  match f with
  | S754_zero _ => Some 0
  | S754_finite sign m e =>
    let mag := if 0 <=? e then Z.pos m * 2 ^ e
               else Z.pos m / 2 ^ (- e) in
    Some (if sign then - mag else mag)
  | S754_infinity _ | S754_nan => None
  end.

(** The exact value of a finite [float64]. *)
Definition float64_value (f : spec_float) : option Q :=
  match f with
  | S754_zero _ => Some 0%Q
  | S754_finite sign m e =>
    let mag := if 0 <=? e then inject_Z (Z.pos m * 2 ^ e)
               else Qmake (Z.pos m) (Z.to_pos (2 ^ (- e))) in
    Some (if sign then Qopp mag else mag)
  | S754_infinity _ | S754_nan => None
  end.

(** The conversion [int(t)] of a [float64]: truncation toward zero.  Where the
    truncated value does not fit (or [t] is not finite) the language leaves
    the result to the implementation; 64-bit x86 gives the least [int]. *)
Definition int_of_float64 (f : spec_float) : Z :=
  match float64_trunc f with
  | Some z => if in_int64b z then z else min_int64
  | None => min_int64
  end.

Definition Millisecond : Z := 1000000.
Definition Second : Z := 1000000000.

(** [x << s] on a 64-bit integer with an unsigned shift count. *)
Definition shl64 (x s : Z) : Z :=
  if s <? 64 then wrap64 (Z.shiftl x s) else 0.

(** The conversion [uint(x)]. *)
Definition to_uint64 (x : Z) : Z := x mod 2 ^ 64.

(* ===================================================================== *)
(** ** Message types (both programs declare the same two structs) *)

(** A value of type [interface{}]. *)
Inductive any : Type :=
  | ANil
  | ABool (b : bool)
  | AFloat64 (f : spec_float)
  | AInt (z : Z)
  | AString (s : string)
  | ASlice (l : list any)
  | AMap (m : option (gmap string any)).

(** The type [error]: [None] is [nil], [Some msg] an error with that text. *)
Definition error := option string.

Module Request.
Record t : Type := mk {
  RequestID : string;
  Method : string;
  Params : option (gmap string any);
  Timestamp : string
}.
End Request.

Module Response.
Record t : Type := mk {
  RequestID : string;
  Result : any;
  Status : string;
  Error : string
}.

Definition with_Result (v : any) (r : t) : t :=
  mk (RequestID r) v (Status r) (Error r).
Definition with_Status (s : string) (r : t) : t :=
  mk (RequestID r) (Result r) s (Error r).
Definition with_Error (e : string) (r : t) : t :=
  mk (RequestID r) (Result r) (Status r) e.
End Response.

(** [v, ok := params[k]]; reading a nil map finds nothing. *)
Definition param (params : option (gmap string any)) (k : string)
  : option any :=
  match params with
  | Some m => m !! k
  | None => None
  end.

(** *** The JSON encoding of a struct: which fields reach the wire *)

(** A struct field as [encoding/json] sees it: its static type decides what
    the [omitempty] option regards as empty. *)
Inductive field_value : Type :=
  | FString (s : string)
  | FInterface (v : any).

Record field : Type := Field {
  field_name : string;
  field_omitempty : bool;
  field_val : field_value
}.

(** [isEmptyValue]: a string of length 0, a nil interface. *)
Definition isEmptyValue (v : field_value) : bool :=
  match v with
  | FString s => Nat.eqb (String.length s) 0
  | FInterface ANil => true
  | FInterface _ => false
  end.

(** The members of the encoded object, in order. *)
Definition encode_fields (fs : list field) : list (string * field_value) :=
  map (fun f => (field_name f, field_val f))
      (List.filter
         (fun f => negb (field_omitempty f && isEmptyValue (field_val f)))
         fs).

(** Whether the encoder writes the literal [null] for a member: a nil
    interface or a nil map inside an interface. *)
Definition encodes_as_null (v : field_value) : bool :=
  match v with
  | FInterface ANil => true
  | FInterface (AMap None) => true
  | _ => false
  end.

(** The struct tags of [Response]. *)
Definition Response_fields (r : Response.t) : list field :=
  [ Field "request_id" false (FString (Response.RequestID r));
    Field "result" true (FInterface (Response.Result r));
    Field "status" false (FString (Response.Status r));
    Field "error" true (FString (Response.Error r)) ].

Definition encode_Response (r : Response.t) : list (string * field_value) :=
  encode_fields (Response_fields r).

(** A member of an encoded object, by name. *)
Fixpoint member (k : string) (obj : list (string * field_value))
  : option field_value :=
  match obj with
  | [] => None
  | (k', v) :: obj' => if String.eqb k k' then Some v else member k obj'
  end.

(* ===================================================================== *)
(** ** server.go *)

(** The result of running a loop with an iteration budget. *)
Inductive run (A : Type) : Type :=
  | Ret (a : A)
  | Panic
  | NoFuel.
Arguments Ret {A} a.
Arguments Panic {A}.
Arguments NoFuel {A}.

(** [r[i], r[j] = r[j], r[i]]; an index out of range panics. *)
Definition swap (r : list rune) (i j : Z) : option (list rune) :=
  if (i <? 0) || (j <? 0) then None
  else
    match r !! Z.to_nat i, r !! Z.to_nat j with
    | Some x, Some y => Some (<[Z.to_nat j := x]> (<[Z.to_nat i := y]> r))
    | _, _ => None
    end.

(** The loop of [reverseString]:
    [for i, j := 0, len(r)-1; i < j; i, j = i+1, j-1]. *)
Fixpoint reverse_loop (fuel : nat) (r : list rune) (i j : Z)
  : run (list rune) :=
  if i <? j then
    match fuel with
    | O => NoFuel
    | S fuel' =>
      match swap r i j with
      | Some r' => reverse_loop fuel' r' (i + 1) (j - 1)
      | None => Panic
      end
    end
  else Ret r.

Definition reverseString (s : string) : run string :=
  let r := runes_of_string s in
  match reverse_loop (length r) r 0 (Z.of_nat (length r) - 1) with
  | Ret r' => Ret (string_of_runes r')
  | Panic => Panic
  | NoFuel => NoFuel
  end.

Definition asInt (v : any) : Z * error :=
  match v with
  | AFloat64 t => (int_of_float64 t, None)
  | AInt t => (t, None)
  | AString t =>
    match Atoi t with
    | Some iv => (iv, None)
    | None => (0, Some "not an integer")
    end
  | _ => (0, Some "not an integer")
  end.

Definition getTwoInts (params : option (gmap string any)) (ka kb : string)
  : Z * Z * error :=
  match param params ka with
  | None => (0, 0, Some ("missing param '" +:+ ka +:+ "'"))
  | Some av =>
    match param params kb with
    | None => (0, 0, Some ("missing param '" +:+ kb +:+ "'"))
    | Some bv =>
      match asInt av with
      | (_, Some err) =>
        (0, 0, Some ("param '" +:+ ka +:+ "' error: " +:+ err))
      | (a, None) =>
        match asInt bv with
        | (_, Some err) =>
          (0, 0, Some ("param '" +:+ kb +:+ "' error: " +:+ err))
        | (b, None) => (a, b, None)
        end
      end
    end
  end.

(** What the server does besides computing: sleeping, handing a request to
    the dispatcher, encoding a response on the connection (the write itself
    may fail; the event records the call), closing the connection, ending
    the process. *)
Inductive server_event : Type :=
  | TimeSleep (d : Z)
  | Dispatch (req : Request.t)
  | ConnWrite (payload : list (string * field_value))
  | ConnClose
  | OsExit (code : Z).

(** The number of seconds the [slow] method sleeps. *)
Definition slow_secs (params : option (gmap string any)) : Z :=
  match param params "sleep" with
  | Some (AFloat64 t) => int_of_float64 t
  | Some (AString t) =>
    match Atoi t with
    | Some v => v
    | None => 5
    end
  | _ => 5
  end.

Section Server.

Variable unicode_lower : rune -> rune.

(** [now] is [time.Now().Format(time.RFC3339)] at the time of the call. *)
Variable now : string.

Definition processRequest (req : Request.t)
  : list server_event * Response.t :=
  let r := Response.mk (Request.RequestID req) ANil "" "" in
  let method := ToLower unicode_lower (Request.Method req) in
  if String.eqb method "add" then
    match getTwoInts (Request.Params req) "a" "b" with
    | (_, _, Some err) =>
      ([], Response.with_Error err (Response.with_Status "ERROR" r))
    | (a, b, None) =>
      ([], Response.with_Status "OK"
             (Response.with_Result (AInt (wrap64 (a + b))) r))
    end
  else if String.eqb method "reverse_string" then
    match param (Request.Params req) "s" with
    | None =>
      ([], Response.with_Error "missing param 's'"
             (Response.with_Status "ERROR" r))
    | Some (AString s) =>
      match reverseString s with
      | Ret s' =>
        ([], Response.with_Status "OK"
               (Response.with_Result (AString s') r))
      | _ => ([OsExit 2], r) (* a panic ends the process *)
      end
    | Some _ =>
      ([], Response.with_Error "param 's' must be string"
             (Response.with_Status "ERROR" r))
    end
  else if String.eqb method "get_time" then
    ([], Response.with_Status "OK" (Response.with_Result (AString now) r))
  else if String.eqb method "slow" then
    let secs := slow_secs (Request.Params req) in
    ([TimeSleep (wrap64 (secs * Second))],
     Response.with_Status "OK"
       (Response.with_Result
          (AString ("slept " +:+ format_int secs +:+ " seconds")) r))
  else if String.eqb method "echo" then
    ([], Response.with_Status "OK"
           (Response.with_Result (AMap (Request.Params req)) r))
  else
    ([], Response.with_Error
           ("unknown method '" +:+ Request.Method req +:+ "'")
           (Response.with_Status "ERROR" r)).

(** [sendError]: the response it encodes on the connection. *)
Definition sendError (reqID msg : string) : list server_event :=
  [ConnWrite (encode_Response (Response.mk reqID ANil "ERROR" msg))].

(** [handleConn]; [decoded] is the outcome of [dec.Decode(&req)] on the
    bytes the peer sent.  The connection is closed on return (the deferred
    [conn.Close()]); [os.Exit] ends the process without returning. *)
Definition handleConn (decoded : string + Request.t) : list server_event :=
  match decoded with
  | inl _ => sendError "" "invalid json" ++ [ConnClose]
  | inr req =>
    let '(effects, resp) := processRequest req in
    Dispatch req :: effects ++
    (if String.eqb (ToLower unicode_lower (Request.Method req)) "crash"
     then [ConnWrite (encode_Response resp); OsExit 1]
     else [ConnWrite (encode_Response resp); ConnClose])
  end.

End Server.

(* ===================================================================== *)
(** ** client.go *)

(** What one connection attempt meets on the network: the first step that
    fails, or the response that was decoded. *)
Inductive exchange : Type :=
  | DialFails (err : string)
  | SetDeadlineFails (err : string)
  | SendFails (err : string)
  | ReceiveFails (err : string)
  | Receives (resp : Response.t).

Definition sendRequest (net : exchange) (req : Request.t)
  : option Response.t * error :=
  match net with
  | DialFails err => (None, Some ("dial error: " +:+ err))
  | SetDeadlineFails err => (None, Some ("set deadline: " +:+ err))
  | SendFails err => (None, Some ("encode/send: " +:+ err))
  | ReceiveFails err => (None, Some ("decode/receive: " +:+ err))
  | Receives resp =>
    if negb (String.eqb (TrimSpace (Response.RequestID resp))
                        (Request.RequestID req))
    then (None, Some ("mismatched request id in response: got "
                      +:+ Response.RequestID resp +:+ " expected "
                      +:+ Request.RequestID req))
    else if negb (String.eqb (Response.Status resp) "OK")
    then (Some resp, Some ("server error: " +:+ Response.Error resp))
    else (Some resp, None)
  end.

(** [randInt]; [b] is the byte [rand.Read] leaves in the buffer.  The
    remainder is Go's [%] (a zero divisor, which would panic, needs
    [max - min + 1] to wrap to 0). *)
Definition randInt (min max : Z) (b : ascii) : Z :=
  if max <=? min then min
  else wrap64 (min + Z.rem (byte_val b) (wrap64 (wrap64 (max - min) + 1))).

(** [time.Duration(200*(1<<uint(attempt-1))) * time.Millisecond] *)
Definition backoff (attempt : Z) : Z :=
  wrap64 (wrap64 (200 * shl64 1 (to_uint64 (wrap64 (attempt - 1))))
          * Millisecond).

(** [time.Duration(randInt(0, 200)) * time.Millisecond] *)
Definition jitter (b : ascii) : Z :=
  wrap64 (randInt 0 200 b * Millisecond).

(** The argument of [time.Sleep] after a failed attempt. *)
Definition retry_delay (attempt : Z) (b : ascii) : Z :=
  wrap64 (backoff attempt + jitter b).

Inductive client_event : Type :=
  | Attempt (k : Z)
  | Slept (d : Z).

Inductive client_outcome : Type :=
  | Printed (resp : option Response.t)
  | Fatal (lastErr : error)
  | Unfinished.

Section Client.

Variable maxRetries : Z.
Variable req : Request.t.

(** The network at attempt [k] and the random byte drawn after it. *)
Variable net : Z -> exchange.
Variable rnd : Z -> ascii.

(** The loop of [main]:
    [for attempt := 1; attempt <= *maxRetries; attempt++]. *)
Fixpoint retry_loop (fuel : nat) (attempt : Z) (lastErr : error)
  : list client_event * client_outcome :=
  if attempt <=? maxRetries then
    match fuel with
    | O => ([], Unfinished)
    | S fuel' =>
      match sendRequest (net attempt) req with
      | (resp, None) => ([Attempt attempt], Printed resp)
      | (_, Some err) =>
        let '(tr, out) :=
          retry_loop fuel' (wrap64 (attempt + 1)) (Some err) in
        (Attempt attempt :: Slept (retry_delay attempt (rnd attempt))
           :: tr, out)
      end
    end
  else ([], Fatal lastErr).

Definition client_main : list client_event * client_outcome :=
  retry_loop (Z.to_nat maxRetries) 1 None.

End Client.

(* ===================================================================== *)
(** ** Notions the statements use *)

(** The values [asInt] turns into an integer without leaving the result to
    the implementation: a finite [float64] whose truncation fits an [int], an
    [int], a string that [Atoi] reads. *)
Inductive int_coercible : any -> Z -> Prop :=
  | coerce_float64 (f : spec_float) (z : Z) :
      float64_trunc f = Some z -> in_int64 z ->
      int_coercible (AFloat64 f) z
  | coerce_int (z : Z) : int_coercible (AInt z) z
  | coerce_string (s : string) (z : Z) :
      Atoi s = Some z -> int_coercible (AString s) z.

(** The values [asInt] refuses. *)
Inductive not_integer : any -> Prop :=
  | refuse_nil : not_integer ANil
  | refuse_bool (b : bool) : not_integer (ABool b)
  | refuse_string (s : string) : Atoi s = None -> not_integer (AString s)
  | refuse_slice (l : list any) : not_integer (ASlice l)
  | refuse_map (m : option (gmap string any)) : not_integer (AMap m).

(** Lower case of one ASCII byte, and of every byte of a string. *)
Definition lower_byte (c : ascii) : ascii :=
  let b := byte_val c in
  if (0x41 <=? b) && (b <=? 0x5A) then byte_of (b + 0x20) else c.

Fixpoint lower_bytes (s : string) : string :=
  match s with
  | EmptyString => EmptyString
  | String c s' => String (lower_byte c) (lower_bytes s')
  end.

(** Every byte of [s] is below 0x80. *)
Fixpoint is_ascii (s : string) : bool :=
  match s with
  | EmptyString => true
  | String c s' => (byte_val c <? 0x80) && is_ascii s'
  end.

(** The names [processRequest] and [handleConn] know. *)
Definition known_methods : list string :=
  ["add"; "reverse_string"; "get_time"; "slow"; "echo"; "crash"].

(** [sub] occurs in [s]. *)
Definition names (s sub : string) : Prop :=
  exists pre post, s = pre +:+ sub +:+ post.

(** The constants of the backoff in [main]. *)
Definition base_delay : Z := 200 * Millisecond.
Definition jitter_bound : Z := 200 * Millisecond.

(** A failed attempt: [sendRequest] returned a non-nil error. *)
Definition attempt_fails (net : Z -> exchange) (req : Request.t) (k : Z)
  : Prop :=
  snd (sendRequest (net k) req) <> None.

(** The events of [n] failed attempts in a row, the first being number [k]. *)
Definition failed_attempts (rnd : Z -> ascii) (k : Z) (n : nat)
  : list client_event :=
  flat_map (fun j => [Attempt j; Slept (retry_delay j (rnd j))])
           (seqZ k (Z.of_nat n)).

Definition attempts_of (tr : list client_event) : list Z :=
  flat_map (fun e => match e with Attempt k => [k] | Slept _ => [] end) tr.

(* ===================================================================== *)
(** ** Sample data for the examples *)

(** A case table that leaves every code point above U+007F alone. *)
Definition no_case : rune -> rune := fun r => r.

Definition noon : string := "2026-01-01T12:00:00Z".

(** 5.9, 7.2 and 2^62 as [float64]. *)
Definition f5_9 : spec_float := S754_finite false 6642809450371482 (-50).
Definition f7_2 : spec_float := S754_finite false 8106479329266893 (-50).
Definition f2p62 : spec_float := S754_finite false 4503599627370496 10.

Definition add_req (a b : any) : Request.t :=
  Request.mk "id-1" "add" (Some {[ "a" := a; "b" := b ]}) "".

Definition slow_req (t : any) : Request.t :=
  Request.mk "id-3" "slow" (Some {[ "sleep" := t ]}) "".

(** A request without surrounding context, by method and params. *)
Definition call (method : string) (params : option (gmap string any))
  : Request.t :=
  Request.mk "3f2c9a1e-0000-4000-8000-000000000001" method params noon.

Definition ok_payload (id : string) (v : any) : list (string * field_value) :=
  [("request_id", FString id); ("result", FInterface v);
   ("status", FString "OK")].

(* ===================================================================== *)
(** ** Identifiers: [genUUID] (client.go) and [newShortID] (server.go) *)

(** ["0123456789abcdef"[n]] *)
Definition hex_digit (n : Z) : ascii :=
  if n <? 10 then byte_of (0x30 + n) else byte_of (0x61 + (n - 10)).

(** [hex.EncodeToString]: two digits for every byte, the high nibble
    first. *)
Fixpoint EncodeToString (b : list ascii) : string :=
  match b with
  | [] => ""
  | c :: b' =>
    String (hex_digit (Z.shiftr (byte_val c) 4))
      (String (hex_digit (Z.land (byte_val c) 0x0F)) (EncodeToString b'))
  end.

Fixpoint zeros (n : nat) : string :=
  match n with
  | O => ""
  | S n' => String "0" (zeros n')
  end.

(** The verb [%0wx] of [fmt.Sprintf] on a byte slice: the hexadecimal
    digits, padded with zeros on the left up to the width [w]. *)
Definition fmt_x (w : nat) (b : list ascii) : string :=
  let digits := EncodeToString b in
  zeros (w - String.length digits) +:+ digits.

(** The buffer [make([]byte, n)] after [rand.Read] has written [rnd] into
    it: never more or fewer than [n] bytes. *)
Definition fill (n : nat) (rnd : list ascii) : list ascii :=
  take n (rnd ++ replicate n "000"%char).

(** [b[i]] for an index within the slice. *)
Definition at_index (b : list ascii) (i : nat) : Z :=
  byte_val (nth i b "000"%char).

(** [genUUID]; [rnd] is what [rand.Read] wrote, [None] when it failed, and
    [nano] is [time.Now().UnixNano()]. *)
Definition genUUID (rnd : option (list ascii)) (nano : Z) : string :=
  match rnd with
  | None => format_int nano
  | Some bytes_read =>
    let b := fill 16 bytes_read in
    let b := <[6%nat := byte_of (Z.lor (Z.land (at_index b 6) 0x0F) 0x40)]> b in
    let b := <[8%nat := byte_of (Z.lor (Z.land (at_index b 8) 0x3F) 0x80)]> b in
    fmt_x 8 (take 4 b) +:+ "-"
    +:+ fmt_x 4 (take 2 (drop 4 b)) +:+ "-"
    +:+ fmt_x 4 (take 2 (drop 6 b)) +:+ "-"
    +:+ fmt_x 4 (take 2 (drop 8 b)) +:+ "-"
    +:+ fmt_x 12 (take 6 (drop 10 b))
  end.

(** [newShortID] *)
Definition newShortID (rnd : option (list ascii)) (nano : Z) : string :=
  match rnd with
  | None => format_int nano
  | Some bytes_read => EncodeToString (fill 8 bytes_read)
  end.

(* ===================================================================== *)
(** ** More notions for the statements *)

(** The bytes of a string. *)
Definition bytes_of (s : string) : list ascii := list_ascii_of_string s.

(** The bytes of a string in reverse order. *)
Definition reverse_bytes (s : string) : string :=
  string_of_list_ascii (rev (list_ascii_of_string s)).

(** An ASCII byte as [range] sees it: a rune of width 1. *)
Definition ascii_seg (c : ascii) : rune * nat := (byte_val c, 1%nat).

(** An ASCII byte that is not white space. *)
Definition visible (c : ascii) : bool :=
  (byte_val c <? 0x80) && negb (IsSpace (byte_val c)).

(** An ASCII white space byte: tab, line feed, vertical tab, form feed,
    carriage return, space. *)
Definition ascii_space (c : ascii) : bool :=
  (byte_val c <? 0x80) && IsSpace (byte_val c).

Definition is_hex (c : ascii) : bool :=
  let b := byte_val c in
  ((0x30 <=? b) && (b <=? 0x39)) || ((0x61 <=? b) && (b <=? 0x66)).

(** The number a string of decimal digits stands for, read from the left
    with [acc] as the value of the digits already passed. *)
Fixpoint uint_value (d : Decimal.uint) (acc : Z) : Z :=
  match d with
  | Decimal.Nil => acc
  | Decimal.D0 d' => uint_value d' (acc * 10 + 0)
  | Decimal.D1 d' => uint_value d' (acc * 10 + 1)
  | Decimal.D2 d' => uint_value d' (acc * 10 + 2)
  | Decimal.D3 d' => uint_value d' (acc * 10 + 3)
  | Decimal.D4 d' => uint_value d' (acc * 10 + 4)
  | Decimal.D5 d' => uint_value d' (acc * 10 + 5)
  | Decimal.D6 d' => uint_value d' (acc * 10 + 6)
  | Decimal.D7 d' => uint_value d' (acc * 10 + 7)
  | Decimal.D8 d' => uint_value d' (acc * 10 + 8)
  | Decimal.D9 d' => uint_value d' (acc * 10 + 9)
  end.

(** The offsets of the dashes in a generated id. *)
Definition dash_offset (n : nat) : bool :=
  existsb (Nat.eqb n) [8; 13; 18; 23]%nat.

(** The last byte of a string. *)
Definition last_byte (s : string) : option ascii :=
  last (list_ascii_of_string s).

(** The first byte of a string. *)
Definition first_byte (s : string) : option ascii :=
  head (list_ascii_of_string s).

(** A request with another method name. *)
Definition with_Method (m : string) (req : Request.t) : Request.t :=
  Request.mk (Request.RequestID req) m (Request.Params req)
             (Request.Timestamp req).

(** The number of responses written in a run of the server. *)
Definition writes (tr : list server_event) : nat :=
  length (List.filter
            (fun e => match e with ConnWrite _ => true | _ => false end) tr).

(** The total time slept in a run of the client. *)
Definition total_sleep (tr : list client_event) : Z :=
  fold_right (fun e acc => match e with Slept d => d + acc | _ => acc end)
             0 tr.

(** What the client decodes carries the id, the status and the error text
    the dispatcher set (the result goes through JSON, which turns an [int]
    into a [float64]). *)
Definition carries (decoded sent : Response.t) : Prop :=
  Response.RequestID decoded = Response.RequestID sent
  /\ Response.Status decoded = Response.Status sent
  /\ Response.Error decoded = Response.Error sent.

(* ===================================================================== *)
(** ** Facts about bytes and UTF-8 *)

Lemma byte_val_range (c : ascii) : 0 <= byte_val c < 256.
Proof.
  unfold byte_val. pose proof (N_ascii_bounded c). lia.
Qed.

Lemma byte_of_val (c : ascii) : byte_of (byte_val c) = c.
Proof.
  unfold byte_of, byte_val. rewrite N2Z.id. apply ascii_N_embedding.
Qed.

Lemma byte_val_of (z : Z) : 0 <= z < 256 -> byte_val (byte_of z) = z.
Proof.
  intros Hz. unfold byte_of, byte_val.
  rewrite N_ascii_embedding by lia. lia.
Qed.

Lemma byte_of_eq (z : Z) (c : ascii) : z = byte_val c -> byte_of z = c.
Proof. intros ->. apply byte_of_val. Qed.

(** Linear arithmetic with divisions and remainders by constants. *)
Ltac dlia := Z.to_euclidean_division_equations; lia.

(** Decide the comparisons of a goal one by one, [tac] closing the branch
    that contradicts the context. *)
Ltac cmp_step_with tac :=
  match goal with
  | |- context [?a =? ?b] => destruct (Z.eqb_spec a b); try tac
  | |- context [?a <? ?b] => destruct (Z.ltb_spec a b); try tac
  | |- context [?a <=? ?b] => destruct (Z.leb_spec a b); try tac
  end; cbn [andb orb negb].

Ltac cmp_lia := cbn [andb orb negb]; repeat cmp_step_with lia.
Ltac cmp_dlia := cbn [andb orb negb]; repeat cmp_step_with dlia.

Ltac byte_ranges :=
  repeat match goal with
  | c : ascii |- _ =>
    lazymatch goal with
    | _ : 0 <= byte_val c < 256 |- _ => fail
    | _ => pose proof (byte_val_range c)
    end
  end.

Lemma String_byte_eq (c : ascii) (z : Z) (s s' : string) :
  z = byte_val c -> s = s' -> String c s = String (byte_of z) s'.
Proof. intros -> ->. by rewrite byte_of_val. Qed.

Lemma scalar_RuneError : scalar RuneError.
Proof. unfold scalar, RuneError. lia. Qed.

(** Decoding the encoding of a scalar value gives it back. *)
Lemma decode_encode_rune (r : rune) (rest : string) :
  scalar r ->
  DecodeRuneInString (encode_rune r +:+ rest)
  = (r, String.length (encode_rune r)).
Proof.
  intros [Hr Hs]. unfold encode_rune.
  cmp_lia;
    cbv [bytes map string_of_list_ascii String.append String.length];
    unfold DecodeRuneInString, is_cont;
    rewrite ?byte_val_of by dlia; cbv zeta;
    cmp_dlia; f_equal; dlia.
Qed.

(** The decoder only produces scalar values. *)
Lemma decode_rune_scalar (s : string) : scalar (fst (DecodeRuneInString s)).
Proof.
  destruct s as [|c0 [|c1 [|c2 [|c3 s4]]]];
    unfold DecodeRuneInString, is_cont; cbv zeta; byte_ranges;
    cmp_lia; cbn [fst]; try apply scalar_RuneError; unfold scalar; lia.
Qed.

(** A rune decoded without error sits in the string as its own encoding. *)
Lemma decode_rune_encoded (s : string) (r : rune) (n : nat) :
  DecodeRuneInString s = (r, n) ->
  s <> "" ->
  r <> RuneError \/ n <> 1%nat ->
  exists rest,
    s = encode_rune r +:+ rest /\ String.length (encode_rune r) = n.
Proof.
  intros Hd Hs Hv. revert Hd.
  destruct s as [|c0 [|c1 [|c2 [|c3 s4]]]]; [done|..];
    unfold DecodeRuneInString, is_cont; cbv zeta; byte_ranges;
    cmp_lia; intros [= <- <-]; try (exfalso; destruct Hv; congruence).
  all: unfold encode_rune; cmp_lia;
       cbv [bytes map string_of_list_ascii String.append String.length].
  all: eexists; split; [|reflexivity].
  all: repeat (apply String_byte_eq; [dlia|]); reflexivity.
Qed.

Lemma encode_rune_length (r : rune) : (1 <= String.length (encode_rune r))%nat.
Proof.
  unfold encode_rune.
  repeat match goal with |- context [if ?c then _ else _] => destruct c end;
    cbn; lia.
Qed.

Lemma decode_from_skip (pre rest : string) :
  decode_from (String.length pre) (pre +:+ rest) = decode_from 0 rest.
Proof. induction pre as [|c pre IH]; [done|]. cbn. exact IH. Qed.

Lemma decode_from_rune (pre rest : string) (r : rune) :
  (1 <= String.length pre)%nat ->
  DecodeRuneInString (pre +:+ rest) = (r, String.length pre) ->
  decode_from 0 (pre +:+ rest) = (r, String.length pre) :: decode_from 0 rest.
Proof.
  destruct pre as [|c pre]; cbn [String.length]; [lia|]. intros _ Hd.
  change (String c pre +:+ rest) with (String c (pre +:+ rest)) in *.
  cbn [decode_from]. rewrite Hd. cbn [String.length].
  rewrite Nat.sub_succ, Nat.sub_0_r. f_equal. apply decode_from_skip.
Qed.

(* ===================================================================== *)
(** ** Strings and their runes *)

Lemma string_length_app (a b : string) :
  String.length (a +:+ b) = (String.length a + String.length b)%nat.
Proof.
  induction a as [|c a IH]; [done|].
  change (String c a +:+ b) with (String c (a +:+ b)).
  cbn [String.length]. by rewrite IH.
Qed.

Lemma runes_of_string_cons (r : rune) (rest : string) :
  scalar r ->
  runes_of_string (encode_rune r +:+ rest) = r :: runes_of_string rest.
Proof.
  intros Hr. unfold runes_of_string.
  rewrite decode_from_rune with (r := r).
  - done.
  - apply encode_rune_length.
  - by apply decode_encode_rune.
Qed.

(** Encoding scalar values and decoding the result gives them back. *)
Lemma runes_of_string_of_runes (rs : list rune) :
  Forall scalar rs -> runes_of_string (string_of_runes rs) = rs.
Proof.
  induction 1 as [|r rs Hr _ IH]; [done|].
  cbn [string_of_runes]. rewrite runes_of_string_cons by done.
  by rewrite IH.
Qed.

Lemma decode_from_scalar (s : string) (skip : nat) :
  Forall (fun p => scalar (fst p)) (decode_from skip s).
Proof.
  revert skip. induction s as [|c s IH]; intros skip; [constructor|].
  cbn [decode_from]. destruct skip as [|k]; [|apply IH].
  pose proof (decode_rune_scalar (String c s)) as Hs.
  destruct (DecodeRuneInString (String c s)) as [r n].
  constructor; [exact Hs|apply IH].
Qed.

(** [[]rune(s)] holds scalar values only, whatever the bytes of [s]. *)
Lemma runes_of_string_scalar (s : string) : Forall scalar (runes_of_string s).
Proof.
  unfold runes_of_string. apply Forall_map, decode_from_scalar.
Qed.

(** A well-formed string is the encoding of its runes. *)
Lemma string_of_runes_of_string (s : string) :
  ValidString s = true -> string_of_runes (runes_of_string s) = s.
Proof.
  remember (String.length s) as n eqn:Hn.
  revert s Hn. induction (lt_wf n) as [n _ IH]. intros s -> Hv.
  destruct s as [|c s]; [done|].
  destruct (DecodeRuneInString (String c s)) as [r k] eqn:Hd.
  assert (Hhead : r <> RuneError \/ k <> 1%nat).
  { unfold ValidString in Hv. cbn [decode_from] in Hv. rewrite Hd in Hv.
    cbn [forallb fst snd] in Hv. apply andb_prop in Hv as [Hv _].
    apply negb_true_iff, andb_false_iff in Hv as [Hv|Hv].
    - left. by apply Z.eqb_neq.
    - right. by apply Nat.eqb_neq. }
  destruct (decode_rune_encoded _ _ _ Hd ltac:(done) Hhead)
    as (rest & Hs & Hlen).
  pose proof (decode_rune_scalar (String c s)) as Hsc.
  rewrite Hd in Hsc. cbn [fst] in Hsc.
  rewrite Hs in *. clear Hs.
  pose proof (encode_rune_length r) as Hpos.
  assert (Hvr : ValidString rest = true).
  { unfold ValidString in *.
    rewrite decode_from_rune with (r := r) in Hv; [|done|by rewrite Hlen].
    cbn [forallb] in Hv. by apply andb_prop in Hv as [_ Hv]. }
  rewrite runes_of_string_cons by done. cbn [string_of_runes].
  f_equal. apply (IH (String.length rest)); [|done..].
  rewrite string_length_app. lia.
Qed.

(* ===================================================================== *)
(** ** [reverseString] *)

Lemma swap_ends (pre mid post : list rune) (x y : rune) :
  swap (pre ++ x :: mid ++ y :: post) (Z.of_nat (length pre))
       (Z.of_nat (length pre) + Z.of_nat (length mid) + 1)
  = Some (pre ++ y :: mid ++ x :: post).
Proof.
  unfold swap.
  destruct (Z.ltb_spec (Z.of_nat (length pre)) 0) as [?|_]; [lia|].
  destruct (Z.ltb_spec (Z.of_nat (length pre) + Z.of_nat (length mid) + 1) 0)
    as [?|_]; [lia|]. cbn [orb].
  replace (Z.to_nat (Z.of_nat (length pre) + Z.of_nat (length mid) + 1))
    with (length (pre ++ x :: mid) + 0)%nat
    by (rewrite length_app; cbn [length]; lia).
  rewrite Nat2Z.id.
  rewrite list_lookup_middle by done.
  replace (pre ++ x :: mid ++ y :: post)
    with ((pre ++ x :: mid) ++ y :: post) by (by rewrite <- app_assoc).
  rewrite list_lookup_middle by lia.
  rewrite <- app_assoc. cbn [app].
  rewrite (insert_app_r_alt pre) by lia. rewrite Nat.sub_diag.
  simpl (<[0%nat:=y]> (x :: _)).
  replace (pre ++ y :: mid ++ y :: post)
    with ((pre ++ y :: mid) ++ y :: post) by (by rewrite <- app_assoc).
  rewrite insert_app_r_alt by (rewrite !length_app; cbn [length]; lia).
  replace (length (pre ++ x :: mid) + 0 - length (pre ++ y :: mid))%nat
    with 0%nat by (rewrite !length_app; cbn [length]; lia).
  simpl (<[0%nat:=x]> (y :: _)).
  by rewrite <- app_assoc.
Qed.

Lemma reverse_loop_done (fuel : nat) (r : list rune) (i j : Z) :
  j <= i -> reverse_loop fuel r i j = Ret r.
Proof.
  intros Hij. destruct fuel; cbn [reverse_loop];
    destruct (Z.ltb_spec i j); done || lia.
Qed.

Lemma reverse_loop_step (fuel : nat) (r : list rune) (i j : Z) :
  i < j ->
  reverse_loop (S fuel) r i j
  = match swap r i j with
    | Some r' => reverse_loop fuel r' (i + 1) (j - 1)
    | None => Panic
    end.
Proof.
  intros Hij. cbn [reverse_loop]. destruct (Z.ltb_spec i j); done || lia.
Qed.

(** The loop reverses the part of the slice between its two indices. *)
Lemma reverse_loop_spec (n : nat) :
  forall (mid pre post : list rune) (fuel : nat),
    length mid = n ->
    (n <= 2 * fuel + 1)%nat ->
    reverse_loop fuel (pre ++ mid ++ post) (Z.of_nat (length pre))
                 (Z.of_nat (length pre) + Z.of_nat (length mid) - 1)
    = Ret (pre ++ rev mid ++ post).
Proof.
  induction (lt_wf n) as [n _ IH]. intros mid pre post fuel Hn Hfuel.
  destruct mid as [|x mid].
  { rewrite reverse_loop_done; [done|cbn [length]; lia]. }
  induction mid as [|y mid' _] using rev_ind.
  { rewrite reverse_loop_done; [done|cbn [length]; lia]. }
  rewrite length_cons, length_app in Hn. cbn [length] in Hn.
  destruct fuel as [|fuel]; [lia|].
  rewrite reverse_loop_step
    by (rewrite length_cons, length_app; cbn [length]; lia).
  replace (pre ++ (x :: mid' ++ [y]) ++ post)
    with (pre ++ x :: mid' ++ y :: post)
    by (cbn; by rewrite <- app_assoc).
  replace (Z.of_nat (length pre) + Z.of_nat (length (x :: mid' ++ [y])) - 1)
    with (Z.of_nat (length pre) + Z.of_nat (length mid') + 1)
    by (rewrite length_cons, length_app; cbn [length]; lia).
  rewrite swap_ends.
  replace (pre ++ y :: mid' ++ x :: post)
    with ((pre ++ [y]) ++ mid' ++ x :: post) by (by rewrite <- app_assoc).
  replace (Z.of_nat (length pre) + 1) with (Z.of_nat (length (pre ++ [y])))
    by (rewrite length_app; cbn [length]; lia).
  replace (Z.of_nat (length pre) + Z.of_nat (length mid') + 1 - 1)
    with (Z.of_nat (length (pre ++ [y])) + Z.of_nat (length mid') - 1)
    by (rewrite length_app; cbn [length]; lia).
  rewrite (IH (length mid')) by lia.
  cbn [rev]. rewrite rev_unit. cbn. rewrite <- !app_assoc. done.
Qed.

(** [reverseString] neither panics nor runs out of iterations, and returns
    the encoding of the runes of [s] in reverse order. *)
Lemma reverseString_rev (s : string) :
  reverseString s = Ret (string_of_runes (rev (runes_of_string s))).
Proof.
  unfold reverseString.
  pose proof (reverse_loop_spec (length (runes_of_string s))
                (runes_of_string s) [] [] (length (runes_of_string s))
                eq_refl ltac:(lia)) as H.
  cbn [app length] in H. rewrite !app_nil_r in H.
  change (Z.of_nat 0) with 0 in H. rewrite Z.add_0_l in H.
  by rewrite H.
Qed.

(** C7: applying the string reversal of [reverse_string] twice yields the
    original string, for every input string the operation receives.  Its
    only call ([processRequest], the [reverse_string] case) passes a string
    decoded by [encoding/json], and such a string is well-formed UTF-8: the
    decoder replaces ill-formed bytes by U+FFFD.  [ValidString s] says that
    [s] is such a string. *)
Theorem C7_reverseString_involution (s : string) :
  ValidString s = true ->
  exists s', reverseString s = Ret s' /\ reverseString s' = Ret s.
Proof.
  intros Hv. exists (string_of_runes (rev (runes_of_string s))).
  split; [apply reverseString_rev|].
  rewrite reverseString_rev.
  rewrite runes_of_string_of_runes
    by (apply Forall_rev, runes_of_string_scalar).
  rewrite rev_involutive. by rewrite string_of_runes_of_string.
Qed.

(** The involution at a string of one-, two-, three- and four-byte runes. *)
Lemma C7_reverseString_involution_witness :
  ValidString (bytes [0x68; 0xC3; 0xA9; 0xE2; 0x82; 0xAC;
                      0xF0; 0x9F; 0x98; 0x80; 0x21]) = true
  /\ exists s',
       reverseString (bytes [0x68; 0xC3; 0xA9; 0xE2; 0x82; 0xAC;
                             0xF0; 0x9F; 0x98; 0x80; 0x21]) = Ret s'
       /\ reverseString s'
          = Ret (bytes [0x68; 0xC3; 0xA9; 0xE2; 0x82; 0xAC;
                        0xF0; 0x9F; 0x98; 0x80; 0x21]).
Proof.
  split; [reflexivity|].
  apply C7_reverseString_involution. reflexivity.
Defined.

(** What [ValidString] is for: called directly on the byte FF, which is
    not UTF-8 and which no decoded JSON string contains, [reverseString]
    returns U+FFFD (EF BF BD), and reversing that leaves it as it is. *)
Lemma reverseString_ill_formed :
  reverseString (bytes [0xFF]) = Ret (bytes [0xEF; 0xBF; 0xBD])
  /\ reverseString (bytes [0xEF; 0xBF; 0xBD]) = Ret (bytes [0xEF; 0xBF; 0xBD])
  /\ bytes [0xEF; 0xBF; 0xBD] <> bytes [0xFF].
Proof. repeat split; try reflexivity. discriminate. Qed.

(* ===================================================================== *)
(** ** 64-bit arithmetic *)

Lemma wrap64_id (z : Z) : in_int64 z -> wrap64 z = z.
Proof.
  unfold in_int64, min_int64, max_int64, wrap64. intros Hz.
  rewrite Z.mod_small by lia. lia.
Qed.

Lemma wrap64_range (z : Z) : in_int64 (wrap64 z).
Proof.
  unfold in_int64, min_int64, max_int64, wrap64.
  pose proof (Z.mod_pos_bound (z + 2 ^ 63) (2 ^ 64) ltac:(lia)). lia.
Qed.

Lemma in_int64b_true (z : Z) : in_int64 z -> in_int64b z = true.
Proof.
  unfold in_int64, in_int64b. intros [H1 H2].
  apply andb_true_intro; split; by apply Z.leb_le.
Qed.

(* ===================================================================== *)
(** ** The server's dispatcher *)

Section ServerFacts.

Variable unicode_lower : rune -> rune.
Variable now : string.

Local Abbreviation processRequest := (processRequest unicode_lower now).
Local Abbreviation handleConn := (handleConn unicode_lower now).
Local Abbreviation ToLower := (ToLower unicode_lower).

Lemma asInt_coercible (v : any) (z : Z) :
  int_coercible v z -> asInt v = (z, None).
Proof.
  destruct 1 as [f z Hf Hz| |s z Hs]; cbn [asInt].
  - unfold int_of_float64. by rewrite Hf, in_int64b_true.
  - done.
  - by rewrite Hs.
Qed.

Lemma asInt_not_integer (v : any) :
  not_integer v -> asInt v = (0, Some "not an integer").
Proof. destruct 1 as [| |s Hs| |]; cbn [asInt]; by rewrite ?Hs. Qed.

Lemma processRequest_add (req : Request.t) :
  ToLower (Request.Method req) = "add" ->
  processRequest req
  = match getTwoInts (Request.Params req) "a" "b" with
    | (_, _, Some err) =>
      ([], Response.mk (Request.RequestID req) ANil "ERROR" err)
    | (a, b, None) =>
      ([], Response.mk (Request.RequestID req) (AInt (wrap64 (a + b)))
                       "OK" "")
    end.
Proof.
  intros Hm. unfold processRequest. rewrite Hm.
  change ("add" =? "add")%string with true. cbv iota.
  by destruct (getTwoInts _ _ _) as [[a b] [err|]].
Qed.

Lemma processRequest_slow (req : Request.t) :
  ToLower (Request.Method req) = "slow" ->
  processRequest req
  = ([TimeSleep (wrap64 (slow_secs (Request.Params req) * Second))],
     Response.mk (Request.RequestID req)
       (AString ("slept " +:+ format_int (slow_secs (Request.Params req))
                          +:+ " seconds"))
       "OK" "").
Proof. intros Hm. unfold processRequest. by rewrite Hm. Qed.

Lemma processRequest_unknown (req : Request.t) :
  ToLower (Request.Method req) <> "add" ->
  ToLower (Request.Method req) <> "reverse_string" ->
  ToLower (Request.Method req) <> "get_time" ->
  ToLower (Request.Method req) <> "slow" ->
  ToLower (Request.Method req) <> "echo" ->
  processRequest req
  = ([], Response.mk (Request.RequestID req) ANil "ERROR"
           ("unknown method '" +:+ Request.Method req +:+ "'")).
Proof.
  intros H1 H2 H3 H4 H5. unfold processRequest.
  apply String.eqb_neq in H1, H2, H3, H4, H5.
  by rewrite H1, H2, H3, H4, H5.
Qed.

(** Every branch of the dispatcher leaves the request's id in the response
    and sets the status to one of the two literals. *)
Lemma processRequest_status (req : Request.t) :
  Response.RequestID (snd (processRequest req)) = Request.RequestID req
  /\ (Response.Status (snd (processRequest req)) = "OK"
      /\ Response.Error (snd (processRequest req)) = ""
      /\ Response.Result (snd (processRequest req)) <> ANil
      \/ Response.Status (snd (processRequest req)) = "ERROR"
         /\ Response.Error (snd (processRequest req)) <> ""
         /\ Response.Result (snd (processRequest req)) = ANil).
Proof.
  unfold processRequest.
  repeat match goal with
         | |- context [if ?c then _ else _] => destruct c
         end.
  - unfold getTwoInts.
    destruct (param _ "a") as [av|]; [|cbn; auto].
    destruct (param _ "b") as [bv|]; [|cbn; auto].
    destruct (asInt av) as [a [ea|]]; [cbn; auto|].
    destruct (asInt bv) as [b [eb|]]; cbn; auto.
  - destruct (param _ "s") as [[]|]; cbn; auto.
    rewrite reverseString_rev. cbn; auto.
  - cbn; auto.
  - cbn; auto.
  - cbn; auto.
  - cbn; auto.
Qed.

End ServerFacts.

(* ===================================================================== *)
(** ** The server: claims *)

(** C9: for every decoded request, whatever its method and parameters, the
    response the dispatcher builds carries the request's id and a status that
    is either ["OK"] or ["ERROR"], never empty or anything else. *)
Theorem C9_response_id_and_status
  (unicode_lower : rune -> rune) (now : string) (req : Request.t) :
  let resp := snd (processRequest unicode_lower now req) in
  Response.RequestID resp = Request.RequestID req
  /\ (Response.Status resp = "OK" \/ Response.Status resp = "ERROR").
Proof.
  cbv zeta.
  destruct (processRequest_status unicode_lower now req)
    as [Hid [(Hs & _)|(Hs & _)]]; auto.
Qed.

(** C5: a request whose method, in lower case, is none of the six known
    names is answered with status ["ERROR"], an error message that contains
    the method as the request spelled it, and the request's id. *)
Theorem C5_unknown_method
  (unicode_lower : rune -> rune) (now : string) (req : Request.t) :
  ~ In (ToLower unicode_lower (Request.Method req)) known_methods ->
  let resp := snd (processRequest unicode_lower now req) in
  Response.Status resp = "ERROR"
  /\ Response.Error resp = "unknown method '" +:+ Request.Method req +:+ "'"
  /\ names (Response.Error resp) (Request.Method req)
  /\ Response.RequestID resp = Request.RequestID req.
Proof.
  intros Hm. cbv zeta. unfold known_methods in Hm. cbn [In] in Hm.
  rewrite processRequest_unknown by (intros E; apply Hm; rewrite E; tauto).
  cbn [snd Response.Status Response.Error Response.RequestID].
  repeat split. by exists "unknown method '", "'".
Qed.

Lemma C5_unknown_method_witness :
  ~ In (ToLower no_case "Multiply") known_methods
  /\ let resp := snd (processRequest no_case noon
                        (Request.mk "id-7" "Multiply" None "")) in
     Response.Status resp = "ERROR"
     /\ Response.Error resp = "unknown method 'Multiply'"
     /\ names (Response.Error resp) "Multiply"
     /\ Response.RequestID resp = "id-7".
Proof.
  assert (H : ~ In (ToLower no_case "Multiply") known_methods).
  { vm_compute. intros H. repeat destruct H as [H|H]; try discriminate H.
    exact H. }
  split; [exact H|].
  exact (C5_unknown_method no_case noon
           (Request.mk "id-7" "Multiply" None "") H).
Defined.

(** C6: when decoding the request fails, the server writes one response,
    with an empty id, status ["ERROR"] and a message, and closes the
    connection; no request reaches the dispatcher. *)
Theorem C6_decode_failure
  (unicode_lower : rune -> rune) (now : string) (err : string) :
  exists payload,
    handleConn unicode_lower now (inl err) = [ConnWrite payload; ConnClose]
    /\ member "request_id" payload = Some (FString "")
    /\ member "status" payload = Some (FString "ERROR")
    /\ member "error" payload = Some (FString "invalid json")
    /\ member "result" payload = None
    /\ forall req, ~ In (Dispatch req) (handleConn unicode_lower now (inl err)).
Proof.
  eexists. split; [reflexivity|]. repeat split.
  intros req [H|[H|[]]]; discriminate H.
Qed.

Lemma member_encode_Response (r : Response.t) :
  member "request_id" (encode_Response r)
  = Some (FString (Response.RequestID r))
  /\ member "status" (encode_Response r) = Some (FString (Response.Status r))
  /\ member "result" (encode_Response r)
     = match Response.Result r with
       | ANil => None
       | v => Some (FInterface v)
       end
  /\ member "error" (encode_Response r)
     = match Response.Error r with
       | EmptyString => None
       | e => Some (FString e)
       end.
Proof.
  destruct r as [id res st er]. unfold encode_Response, encode_fields.
  cbn [Response_fields Response.RequestID Response.Result Response.Status
       Response.Error List.filter field_omitempty field_val andb negb].
  destruct res, er; cbn; auto.
Qed.

(** What the server writes on a connection is the encoding of the response
    of [sendError] or of the dispatcher. *)
Lemma handleConn_writes
  (unicode_lower : rune -> rune) (now : string)
  (decoded : string + Request.t) (payload : list (string * field_value)) :
  In (ConnWrite payload) (handleConn unicode_lower now decoded) ->
  payload = encode_Response (Response.mk "" ANil "ERROR" "invalid json")
  \/ exists req,
       decoded = inr req
       /\ payload
          = encode_Response (snd (processRequest unicode_lower now req)).
Proof.
  destruct decoded as [err|req]; cbn [handleConn sendError app].
  - intros [[= <-]|[H|[]]]; [by left|discriminate H].
  - intros Hin. right. exists req. split; [done|].
    destruct (processRequest unicode_lower now req) as [effects resp] eqn:Hp.
    cbn [snd].
    assert (Heff : forall p, ~ In (ConnWrite p) effects).
    { intros p Hp'. revert Hp Hp'. unfold processRequest.
      repeat match goal with
             | |- context [if ?c then _ else _] => destruct c
             | |- context [match ?c with _ => _ end] => destruct c
             end; intros [= <- _]; cbn [In];
        intros H; repeat destruct H as [H|H]; done. }
    destruct Hin as [H|Hin]; [discriminate H|].
    apply in_app_or in Hin as [Hin|Hin]; [by apply Heff in Hin|].
    destruct (_ =? _)%string; cbn [In] in Hin;
      destruct Hin as [[= <-]|[H|[]]]; done.
Qed.

(** C8: in every response the server writes, [result] is a member of the
    encoded object exactly when the status is ["OK"], and [error] exactly
    when it is ["ERROR"]; a field the response does not carry (a nil
    [Result], an empty [Error]) is left out of the object, never written as
    [null] or as an empty string. *)
Theorem C8_field_presence
  (unicode_lower : rune -> rune) (now : string)
  (decoded : string + Request.t) (payload : list (string * field_value)) :
  In (ConnWrite payload) (handleConn unicode_lower now decoded) ->
  exists resp,
    payload = encode_Response resp
    /\ member "status" payload = Some (FString (Response.Status resp))
    /\ (is_Some (member "result" payload) <-> Response.Status resp = "OK")
    /\ (is_Some (member "error" payload) <-> Response.Status resp = "ERROR")
    /\ (Response.Result resp = ANil <-> member "result" payload = None)
    /\ (Response.Error resp = "" <-> member "error" payload = None)
    /\ member "result" payload <> Some (FInterface ANil)
    /\ member "error" payload <> Some (FString "").
Proof.
  intros Hin.
  assert (exists resp,
    payload = encode_Response resp
    /\ (Response.Status resp = "OK" /\ Response.Error resp = ""
        /\ Response.Result resp <> ANil
        \/ Response.Status resp = "ERROR" /\ Response.Error resp <> ""
           /\ Response.Result resp = ANil)) as (resp & -> & Hst).
  { apply handleConn_writes in Hin as [->|(req & -> & ->)].
    - eexists. split; [reflexivity|]. right. by cbn.
    - eexists. split; [reflexivity|].
      apply processRequest_status. }
  exists resp. split; [done|].
  destruct (member_encode_Response resp) as (_ & Hs & Hr & He).
  rewrite Hs, Hr, He. split; [done|].
  destruct resp as [id res st er];
    cbn [Response.Status Response.Error Response.Result] in *.
  destruct Hst as [(-> & -> & Hres)|(-> & Her & ->)].
  - destruct res; try done; repeat split; intros; try done; by eexists.
  - destruct er; try done; repeat split; intros; try done;
      try by eexists. all: by destruct H.
Qed.

Lemma C8_field_presence_witness :
  In (ConnWrite (ok_payload "id-1" (AInt 12)))
     (handleConn no_case noon (inr (add_req (AInt 5) (AString "7"))))
  /\ exists resp,
       ok_payload "id-1" (AInt 12) = encode_Response resp
       /\ Response.Status resp = "OK".
Proof.
  assert (H : In (ConnWrite (ok_payload "id-1" (AInt 12)))
                (handleConn no_case noon
                   (inr (add_req (AInt 5) (AString "7"))))).
  { vm_compute. right. left. reflexivity. }
  split; [exact H|].
  destruct (C8_field_presence _ _ _ _ H) as (resp & E & _ & Hok & _).
  exists resp. split; [exact E|]. apply Hok. eexists. reflexivity.
Defined.

(** The one [null] the server can write: [echo] copies the params of the
    request into the result, and a request without params has a nil map
    there, which is a non-nil interface value for [omitempty]. *)
Lemma echo_nil_params_null :
  handleConn no_case noon (inr (Request.mk "id-2" "echo" None ""))
  = [Dispatch (Request.mk "id-2" "echo" None "");
     ConnWrite [("request_id", FString "id-2");
            ("result", FInterface (AMap None));
            ("status", FString "OK")];
     ConnClose]
  /\ encodes_as_null (FInterface (AMap None)) = true.
Proof. split; reflexivity. Qed.

(* ===================================================================== *)
(** ** Numeric coercion *)

Lemma getTwoInts_coercible (params : option (gmap string any))
      (ka kb : string) (va vb : any) (a b : Z) :
  param params ka = Some va -> param params kb = Some vb ->
  int_coercible va a -> int_coercible vb b ->
  getTwoInts params ka kb = (a, b, None).
Proof.
  intros Ha Hb Hca Hcb. unfold getTwoInts. rewrite Ha, Hb.
  by rewrite (asInt_coercible _ _ Hca), (asInt_coercible _ _ Hcb).
Qed.

Lemma getTwoInts_not_integer (params : option (gmap string any))
      (ka kb : string) (va vb : any) :
  param params ka = Some va -> param params kb = Some vb ->
  not_integer va \/ not_integer vb ->
  exists err, getTwoInts params ka kb = (0, 0, Some err).
Proof.
  intros Ha Hb Hn. unfold getTwoInts. rewrite Ha, Hb.
  destruct (asInt va) as [a [ea|]] eqn:Ea; [by eexists|].
  destruct Hn as [Hn|Hn].
  - rewrite (asInt_not_integer _ Hn) in Ea. discriminate Ea.
  - rewrite (asInt_not_integer _ Hn). by eexists.
Qed.

Lemma parse_digits_non_digit (s : string) (c : ascii) (acc : Z) :
  In c (list_ascii_of_string s) ->
  is_digit (byte_val c) = false ->
  parse_digits s acc = None.
Proof.
  revert acc. induction s as [|c' s IH]; intros acc; cbn; [done|].
  intros [->|Hin] Hc.
  - by rewrite Hc.
  - destruct (is_digit (byte_val c')); [by apply IH|done].
Qed.

(** A string with a decimal point is not an integer for [Atoi]. *)
Lemma Atoi_decimal_point (s : string) :
  In "."%char (list_ascii_of_string s) -> Atoi s = None.
Proof.
  destruct s as [|c s]; [done|]. intros Hin. unfold Atoi.
  assert (Hp : forall t, In "."%char (list_ascii_of_string t) ->
                         parse_digits t 0 = None).
  { intros t Ht. by apply (parse_digits_non_digit t "."%char). }
  destruct (Ascii.eqb_spec c "-") as [->|Hm]; cbn [orb].
  - destruct Hin as [H|Hin]; [discriminate H|].
    destruct s; [done|]. by rewrite Hp.
  - destruct (Ascii.eqb_spec c "+") as [->|Hpl].
    + destruct Hin as [H|Hin]; [discriminate H|].
      destruct s; [done|]. by rewrite Hp.
    + by rewrite Hp.
Qed.

(** [float64_trunc] discards the fraction of the exact value: it rounds
    toward zero. *)
Lemma float64_trunc_toward_zero (f : spec_float) (q : Q) :
  float64_value f = Some q ->
  exists z,
    float64_trunc f = Some z
    /\ (0 <= q -> inject_Z z <= q < inject_Z z + 1)%Q
    /\ (q <= 0 -> inject_Z z - 1 < q <= inject_Z z)%Q.
Proof.
  destruct f as [sg| |  |sg m e]; cbn [float64_value float64_trunc];
    try discriminate.
  - intros [= <-]. exists 0. split; [done|]. split; intros _; split; done.
  - intros [= <-]. eexists. split; [reflexivity|].
    assert (Hpow : forall k, 0 <= k -> 0 < 2 ^ k)
      by (intros; by apply Z.pow_pos_nonneg).
    destruct (Z.leb_spec 0 e) as [He|He].
    + destruct sg; unfold Qle, Qlt, inject_Z, Qopp, Qplus, Qminus; cbn;
        pose proof (Hpow e He); split; intros _; split; nia.
    + pose proof (Hpow (- e) ltac:(lia)) as Hd.
      pose proof (Z.mul_div_le (Z.pos m) (2 ^ (- e)) Hd) as Hlo.
      pose proof (Z.mul_succ_div_gt (Z.pos m) (2 ^ (- e)) Hd) as Hhi.
      destruct sg; unfold Qle, Qlt, inject_Z, Qopp, Qplus, Qminus; cbn;
        rewrite ?Z2Pos.id by done; split; intros H0; split; nia.
Qed.

(** C4 (as amended): for every [add] call whose params bind [a] and [b] to
    values [asInt] reads as integers (a [float64], truncated toward zero; an
    [int]; a string holding an optionally signed decimal integer within the
    range of [int]) the response has status ["OK"] and its result is the sum
    of the two integers in 64-bit arithmetic, the exact sum whenever that
    fits an [int].  When [a] or [b] is a string [Atoi] does not read (a
    fractional one such as "2.5" included), a boolean, a null, an array or
    an object, the response has status ["ERROR"] and no result. *)
Theorem C4_add_integers
  (unicode_lower : rune -> rune) (now : string) (req : Request.t)
  (va vb : any) :
  ToLower unicode_lower (Request.Method req) = "add" ->
  param (Request.Params req) "a" = Some va ->
  param (Request.Params req) "b" = Some vb ->
  let resp := snd (processRequest unicode_lower now req) in
  (forall a b : Z,
      int_coercible va a -> int_coercible vb b ->
      Response.Status resp = "OK"
      /\ Response.Result resp = AInt (wrap64 (a + b))
      /\ (in_int64 (a + b) -> Response.Result resp = AInt (a + b)))
  /\ (not_integer va \/ not_integer vb ->
      Response.Status resp = "ERROR" /\ Response.Result resp = ANil).
Proof.
  intros Hm Ha Hb. cbv zeta. rewrite processRequest_add by done. split.
  - intros a b Hca Hcb.
    rewrite (getTwoInts_coercible _ _ _ _ _ _ _ Ha Hb Hca Hcb).
    cbn [snd Response.Status Response.Result]. repeat split.
    intros Hfit. by rewrite wrap64_id.
  - intros Hn.
    destruct (getTwoInts_not_integer _ _ _ _ _ Ha Hb Hn) as [err ->].
    by cbn.
Qed.

Lemma C4_add_integers_witness :
  ToLower no_case (Request.Method (add_req (AString "-5") (AInt 7))) = "add"
  /\ param (Request.Params (add_req (AString "-5") (AInt 7))) "a"
     = Some (AString "-5")
  /\ param (Request.Params (add_req (AString "-5") (AInt 7))) "b"
     = Some (AInt 7)
  /\ int_coercible (AString "-5") (-5)
  /\ int_coercible (AInt 7) 7
  /\ Response.Status
       (snd (processRequest no_case noon (add_req (AString "-5") (AInt 7))))
     = "OK"
  /\ Response.Result
       (snd (processRequest no_case noon (add_req (AString "-5") (AInt 7))))
     = AInt (wrap64 (-5 + 7)).
Proof.
  assert (Hm : ToLower no_case
                 (Request.Method (add_req (AString "-5") (AInt 7))) = "add")
    by reflexivity.
  assert (Ha : param (Request.Params (add_req (AString "-5") (AInt 7))) "a"
               = Some (AString "-5")) by reflexivity.
  assert (Hb : param (Request.Params (add_req (AString "-5") (AInt 7))) "b"
               = Some (AInt 7)) by reflexivity.
  assert (Hca : int_coercible (AString "-5") (-5))
    by (apply coerce_string; reflexivity).
  assert (Hcb : int_coercible (AInt 7) 7) by apply coerce_int.
  pose proof (proj1 (C4_add_integers no_case noon _ _ _ Hm Ha Hb)
                (-5) 7 Hca Hcb) as (Hst & Hres & _).
  exact (conj Hm (conj Ha (conj Hb (conj Hca (conj Hcb (conj Hst Hres)))))).
Defined.

(** C4 as stated fails: JSON numbers with a fraction are added after
    truncation (5.9 and 7.2 give 12, not their sum), and a numeric string
    with a fraction is refused. *)
Lemma C4_add_not_the_sum :
  snd (processRequest no_case noon (add_req (AFloat64 f5_9) (AFloat64 f7_2)))
  = Response.mk "id-1" (AInt 12) "OK" ""
  /\ (exists qa qb,
         float64_value f5_9 = Some qa /\ float64_value f7_2 = Some qb
         /\ ~ (qa + qb == inject_Z 12)%Q)
  /\ Response.Status
       (snd (processRequest no_case noon
               (add_req (AString "2.5") (AString "1"))))
     = "ERROR".
Proof.
  split; [reflexivity|]. split; [|reflexivity].
  eexists _, _. split; [reflexivity|]. split; [reflexivity|].
  unfold Qeq. cbn. lia.
Qed.

(** C10 (as amended): a [float64] argument is truncated toward zero before
    use.  For [add], when the truncations of [a] and [b] fit an [int] the
    result is their sum in 64-bit arithmetic, the exact sum whenever that
    fits (5.9 and 7.2 give 12); a string with a decimal point, such as
    "2.5", is refused; for [slow], a [float64] whose truncation fits an
    [int] makes the handler sleep that many whole seconds. *)
Theorem C10_float_truncation
  (unicode_lower : rune -> rune) (now : string) (req : Request.t) :
  (forall (fa fb : spec_float) (za zb : Z),
      ToLower unicode_lower (Request.Method req) = "add" ->
      param (Request.Params req) "a" = Some (AFloat64 fa) ->
      param (Request.Params req) "b" = Some (AFloat64 fb) ->
      float64_trunc fa = Some za -> in_int64 za ->
      float64_trunc fb = Some zb -> in_int64 zb ->
      processRequest unicode_lower now req
      = ([], Response.mk (Request.RequestID req)
                         (AInt (wrap64 (za + zb))) "OK" "")
      /\ (in_int64 (za + zb) ->
          processRequest unicode_lower now req
          = ([], Response.mk (Request.RequestID req)
                             (AInt (za + zb)) "OK" "")))
  /\ (forall s : string,
         ToLower unicode_lower (Request.Method req) = "add" ->
         (param (Request.Params req) "a" = Some (AString s)
          \/ param (Request.Params req) "b" = Some (AString s)) ->
         In "."%char (list_ascii_of_string s) ->
         Response.Status (snd (processRequest unicode_lower now req))
         = "ERROR")
  /\ (forall (f : spec_float) (z : Z),
         ToLower unicode_lower (Request.Method req) = "slow" ->
         param (Request.Params req) "sleep" = Some (AFloat64 f) ->
         float64_trunc f = Some z -> in_int64 z ->
         processRequest unicode_lower now req
         = ([TimeSleep (wrap64 (z * Second))],
            Response.mk (Request.RequestID req)
              (AString ("slept " +:+ format_int z +:+ " seconds"))
              "OK" "")).
Proof.
  split; [|split].
  - intros fa fb za zb Hm Ha Hb Hta Hza Htb Hzb.
    rewrite processRequest_add by done.
    rewrite (getTwoInts_coercible _ _ _ _ _ za zb Ha Hb)
      by (by apply coerce_float64).
    split; [done|]. intros Hfit. by rewrite wrap64_id.
  - intros s Hm Hab Hdot.
    rewrite processRequest_add by done.
    assert (Hn : not_integer (AString s))
      by (apply refuse_string; by apply Atoi_decimal_point).
    destruct (param (Request.Params req) "a") as [va|] eqn:Ha;
      [|unfold getTwoInts; by rewrite Ha].
    destruct (param (Request.Params req) "b") as [vb|] eqn:Hb;
      [|unfold getTwoInts; by rewrite Ha, Hb].
    destruct (getTwoInts_not_integer _ _ _ _ _ Ha Hb) as [err ->]; [|done].
    destruct Hab as [[= ->]|[= ->]]; auto.
  - intros f z Hm Hs Ht Hz.
    rewrite processRequest_slow by done.
    unfold slow_secs. rewrite Hs. unfold int_of_float64.
    by rewrite Ht, in_int64b_true.
Qed.

Lemma C10_float_truncation_witness :
  processRequest no_case noon (add_req (AFloat64 f5_9) (AFloat64 f7_2))
  = ([], Response.mk "id-1" (AInt 12) "OK" "")
  /\ Response.Status
       (snd (processRequest no_case noon
               (add_req (AString "2.5") (AFloat64 f7_2))))
     = "ERROR"
  /\ processRequest no_case noon (slow_req (AFloat64 f5_9))
     = ([TimeSleep 5000000000],
        Response.mk "id-3" (AString "slept 5 seconds") "OK" "").
Proof.
  assert (Hfit : forall z, -100 <= z <= 100 -> in_int64 z)
    by (unfold in_int64, min_int64, max_int64; lia).
  split; [|split].
  - apply (proj1 (C10_float_truncation no_case noon
                    (add_req (AFloat64 f5_9) (AFloat64 f7_2)))
             f5_9 f7_2 5 7); try reflexivity; apply Hfit; lia.
  - apply (proj1 (proj2 (C10_float_truncation no_case noon
                    (add_req (AString "2.5") (AFloat64 f7_2))))
             "2.5"); [reflexivity|left; reflexivity|cbn; tauto].
  - apply (proj2 (proj2 (C10_float_truncation no_case noon
                    (slow_req (AFloat64 f5_9))))
             f5_9 5); try reflexivity. apply Hfit; lia.
Defined.

(** C10 as stated fails where the sum leaves the range of [int]: 2^62 + 2^62
    wraps around to -2^63. *)
Lemma C10_sum_wraps :
  float64_trunc f2p62 = Some (2 ^ 62)
  /\ snd (processRequest no_case noon
            (add_req (AFloat64 f2p62) (AFloat64 f2p62)))
     = Response.mk "id-1" (AInt (- 2 ^ 63)) "OK" ""
  /\ AInt (- 2 ^ 63) <> AInt (2 ^ 62 + 2 ^ 62).
Proof. repeat split; try reflexivity. discriminate. Qed.

(* ===================================================================== *)
(** ** The client: one attempt *)

(** C1 (as amended): an attempt succeeds only if a response was decoded,
    its id with leading and trailing white space removed equals the
    request's id, and its status is ["OK"]; a response whose trimmed id
    differs from the request's id is rejected whatever its status. *)
Theorem C1_correlation (net : exchange) (req : Request.t) :
  (snd (sendRequest net req) = None ->
   exists resp,
     net = Receives resp
     /\ TrimSpace (Response.RequestID resp) = Request.RequestID req
     /\ Response.Status resp = "OK"
     /\ fst (sendRequest net req) = Some resp)
  /\ (forall resp,
         net = Receives resp ->
         TrimSpace (Response.RequestID resp) <> Request.RequestID req ->
         fst (sendRequest net req) = None
         /\ snd (sendRequest net req) <> None)
  /\ (forall resp,
         net = Receives resp ->
         TrimSpace (Response.RequestID resp) = Request.RequestID req ->
         Response.Status resp = "OK" ->
         sendRequest net req = (Some resp, None)).
Proof.
  split; [|split].
  - destruct net as [e|e|e|e|resp]; cbn [sendRequest snd]; try discriminate.
    destruct (String.eqb_spec (TrimSpace (Response.RequestID resp))
                              (Request.RequestID req)) as [Hid|Hid];
      cbn [negb snd]; [|discriminate].
    destruct (String.eqb_spec (Response.Status resp) "OK") as [Hst|Hst];
      cbn [negb snd fst]; [|discriminate].
    intros _. by exists resp.
  - intros resp -> Hid. cbn [sendRequest].
    apply String.eqb_neq in Hid. rewrite Hid. by cbn.
  - intros resp -> Hid Hst. cbn [sendRequest].
    apply String.eqb_eq in Hid, Hst. by rewrite Hid, Hst.
Qed.

(** C1 as stated fails: a response whose id is the request's id followed by
    a space is accepted, though the two ids differ. *)
Lemma C1_padded_id_accepted :
  sendRequest (Receives (Response.mk "abc " (AInt 12) "OK" ""))
              (Request.mk "abc" "add" None "")
  = (Some (Response.mk "abc " (AInt 12) "OK" ""), None)
  /\ "abc " <> "abc".
Proof. split; [reflexivity|discriminate]. Qed.

(* ===================================================================== *)
(** ** The client: backoff *)

Lemma pow2_bounds (k : Z) : 1 <= k <= 36 -> 1 <= 2 ^ (k - 1) <= 2 ^ 35.
Proof.
  intros Hk. split.
  - pose proof (Z.pow_pos_nonneg 2 (k - 1)). lia.
  - apply Z.pow_le_mono_r; lia.
Qed.

Lemma backoff_exact (k : Z) :
  1 <= k <= 36 -> backoff k = base_delay * 2 ^ (k - 1).
Proof.
  intros Hk. pose proof (pow2_bounds k Hk) as Hp.
  unfold backoff, shl64, to_uint64, base_delay, Millisecond.
  change (2 ^ 35) with 34359738368 in Hp.
  rewrite (wrap64_id (k - 1))
    by (unfold in_int64, min_int64, max_int64; lia).
  rewrite (Z.mod_small (k - 1)) by lia.
  destruct (Z.ltb_spec (k - 1) 64) as [_|?]; [|lia].
  rewrite Z.shiftl_1_l.
  rewrite (wrap64_id (2 ^ (k - 1)))
    by (unfold in_int64, min_int64, max_int64; lia).
  rewrite (wrap64_id (200 * 2 ^ (k - 1)))
    by (unfold in_int64, min_int64, max_int64; lia).
  rewrite wrap64_id by (unfold in_int64, min_int64, max_int64; lia).
  lia.
Qed.

Lemma jitter_exact (b : ascii) :
  jitter b = (byte_val b mod 201) * Millisecond.
Proof.
  pose proof (byte_val_range b) as Hb.
  unfold jitter, randInt, Millisecond.
  change (200 <=? 0) with false. cbv iota.
  change (wrap64 (wrap64 (200 - 0) + 1)) with 201.
  rewrite Z.rem_mod_nonneg by lia.
  pose proof (Z.mod_pos_bound (byte_val b) 201 ltac:(lia)).
  rewrite (wrap64_id (0 + byte_val b mod 201))
    by (unfold in_int64, min_int64, max_int64; lia).
  rewrite wrap64_id by (unfold in_int64, min_int64, max_int64; lia).
  lia.
Qed.

Lemma retry_delay_exact (k : Z) (b : ascii) :
  1 <= k <= 36 ->
  retry_delay k b
  = base_delay * 2 ^ (k - 1) + (byte_val b mod 201) * Millisecond.
Proof.
  intros Hk. unfold retry_delay.
  rewrite backoff_exact, jitter_exact by done.
  pose proof (pow2_bounds k Hk) as Hp.
  change (2 ^ 35) with 34359738368 in Hp.
  pose proof (Z.mod_pos_bound (byte_val b) 201 ltac:(lia)).
  apply wrap64_id.
  unfold in_int64, min_int64, max_int64, base_delay, Millisecond. lia.
Qed.

(** C3 (as amended): between attempt [k] and attempt [k + 1], for [k] up to 36
    (beyond which the delay in nanoseconds leaves the 64-bit range), the
    client sleeps [base_delay * 2^(k-1)] plus the random byte modulo 201 in
    milliseconds: at least [base_delay * 2^(k-1)] and at most
    [base_delay * 2^(k-1) + jitter_bound], the upper bound included; base
    delay and jitter bound are 200ms. *)
Theorem C3_retry_delay_bounds (k : Z) (b : ascii) :
  1 <= k <= 36 ->
  retry_delay k b
  = base_delay * 2 ^ (k - 1) + (byte_val b mod 201) * Millisecond
  /\ base_delay * 2 ^ (k - 1) <= retry_delay k b
  /\ retry_delay k b <= base_delay * 2 ^ (k - 1) + jitter_bound.
Proof.
  intros Hk. rewrite retry_delay_exact by done.
  pose proof (Z.mod_pos_bound (byte_val b) 201 ltac:(lia)).
  unfold jitter_bound, Millisecond. lia.
Qed.

Lemma C3_retry_delay_bounds_witness :
  1 <= 3 <= 36
  /\ retry_delay 3 "077"
     = base_delay * 2 ^ (3 - 1) + (byte_val "077" mod 201) * Millisecond
  /\ base_delay * 2 ^ (3 - 1) <= retry_delay 3 "077"
  /\ retry_delay 3 "077" <= base_delay * 2 ^ (3 - 1) + jitter_bound.
Proof.
  split; [lia|]. apply C3_retry_delay_bounds. lia.
Defined.

(** C3 as stated fails twice: the jitter can be the whole bound (the byte
    200 gives 200ms, so the delay is not strictly below the upper bound), and
    from attempt 37 on the arithmetic overflows (the delay is negative). *)
Lemma C3_bound_reached_and_overflow :
  retry_delay 1 "200" = base_delay * 2 ^ (1 - 1) + jitter_bound
  /\ retry_delay 37 "000" < 0
  /\ 0 < base_delay * 2 ^ (37 - 1).
Proof. repeat split. Qed.

(* ===================================================================== *)
(** ** The client: the retry loop *)

Section RetryLoop.

Variable maxRetries : Z.
Variable req : Request.t.
Variable net : Z -> exchange.
Variable rnd : Z -> ascii.

Local Abbreviation loop := (retry_loop maxRetries req net rnd).

Lemma retry_loop_stop (fuel : nat) (k : Z) (lastErr : error) :
  maxRetries < k -> loop fuel k lastErr = ([], Fatal lastErr).
Proof.
  intros Hk. destruct fuel; cbn [retry_loop];
    destruct (Z.leb_spec k maxRetries); done || lia.
Qed.

Lemma retry_loop_fail (fuel : nat) (k : Z) (lastErr : error) :
  k <= maxRetries -> k < max_int64 -> min_int64 <= k ->
  attempt_fails net req k ->
  loop (S fuel) k lastErr
  = (Attempt k :: Slept (retry_delay k (rnd k))
       :: fst (loop fuel (k + 1) (snd (sendRequest (net k) req))),
     snd (loop fuel (k + 1) (snd (sendRequest (net k) req)))).
Proof.
  intros Hk Hmax Hmin Hf. cbn [retry_loop].
  destruct (Z.leb_spec k maxRetries); [|lia].
  unfold attempt_fails in Hf.
  destruct (sendRequest (net k) req) as [r [e|]]; [|done].
  rewrite wrap64_id by (unfold in_int64, max_int64, min_int64 in *; lia).
  cbn [snd]. by destruct (loop fuel (k + 1) (Some e)).
Qed.

Lemma retry_loop_first (fuel : nat) (k : Z) (lastErr : error) :
  k <= maxRetries ->
  exists rest, fst (loop (S fuel) k lastErr) = Attempt k :: rest.
Proof.
  intros Hk. cbn [retry_loop].
  destruct (Z.leb_spec k maxRetries); [|lia].
  destruct (sendRequest (net k) req) as [r [e|]].
  - destruct (loop fuel _ _). by eexists.
  - by eexists.
Qed.

(** [n] failed attempts in a row, starting at attempt [k]. *)
Lemma retry_loop_failures (n : nat) :
  forall (k : Z) (fuel : nat) (lastErr : error),
    1 <= k -> k + Z.of_nat n - 1 <= maxRetries -> maxRetries < max_int64 ->
    (n <= fuel)%nat ->
    (forall j, k <= j < k + Z.of_nat n -> attempt_fails net req j) ->
    loop fuel k lastErr
    = (failed_attempts rnd k n
         ++ fst (loop (fuel - n) (k + Z.of_nat n)
                   (match n with
                    | O => lastErr
                    | S _ => snd (sendRequest (net (k + Z.of_nat n - 1)) req)
                    end)),
       snd (loop (fuel - n) (k + Z.of_nat n)
              (match n with
               | O => lastErr
               | S _ => snd (sendRequest (net (k + Z.of_nat n - 1)) req)
               end))).
Proof.
  induction n as [|n IH]; intros k fuel lastErr Hk Hmax Hint Hfuel Hfail.
  - rewrite Nat.sub_0_r, Z.add_0_r. cbn [failed_attempts].
    by destruct (loop fuel k lastErr).
  - destruct fuel as [|fuel]; [lia|].
    rewrite retry_loop_fail;
      [|lia|lia|unfold min_int64; lia|apply Hfail; lia].
    rewrite (IH (k + 1)); [|lia|lia|done|lia|intros j Hj; apply Hfail; lia].
    assert (Herr :
      match n with
      | O => snd (sendRequest (net k) req)
      | S _ => snd (sendRequest (net (k + 1 + Z.of_nat n - 1)) req)
      end = snd (sendRequest (net (k + Z.of_nat (S n) - 1)) req)).
    { destruct n; f_equal; f_equal; f_equal; lia. }
    rewrite Herr.
    replace (k + 1 + Z.of_nat n) with (k + Z.of_nat (S n)) by lia.
    replace (S fuel - S n)%nat with (fuel - n)%nat by lia.
    cbn [fst snd]. f_equal.
    unfold failed_attempts.
    rewrite (seqZ_cons k (Z.of_nat (S n))) by lia.
    replace (Z.succ k) with (k + 1) by lia.
    replace (Z.pred (Z.of_nat (S n))) with (Z.of_nat n) by lia.
    done.
Qed.

End RetryLoop.

(** C2 (as amended): let the attempts 1 to [k] fail, [k] being at most the
    configured maximum (itself below 2^63 - 1).  Attempt [k] is made after
    attempts 1 to [k - 1] and no others.  If [k] is the maximum, no attempt
    follows it and the program ends with the error of attempt [k] as the
    last error; otherwise the client sleeps the delay of attempt [k] and
    makes attempt [k + 1].  For [k] up to 36 that delay is
    [base_delay * 2^(k-1)] plus a jitter of 0 to 200 milliseconds.  So after
    the maximum number of failures the attempts made are exactly that
    many. *)
Theorem C2_retry_controller
  (maxRetries : Z) (req : Request.t) (net : Z -> exchange) (rnd : Z -> ascii)
  (k : Z) :
  1 <= k <= maxRetries ->
  maxRetries < max_int64 ->
  (forall j, 1 <= j <= k -> attempt_fails net req j) ->
  exists pre rest,
    fst (client_main maxRetries req net rnd) = pre ++ Attempt k :: rest
    /\ attempts_of pre = seqZ 1 (k - 1)
    /\ (k = maxRetries ->
        attempts_of rest = []
        /\ attempts_of (fst (client_main maxRetries req net rnd))
           = seqZ 1 maxRetries
        /\ snd (client_main maxRetries req net rnd)
           = Fatal (snd (sendRequest (net k) req)))
    /\ (k < maxRetries ->
        exists rest',
          rest = Slept (retry_delay k (rnd k)) :: Attempt (k + 1) :: rest')
    /\ (k <= 36 ->
        retry_delay k (rnd k)
        = base_delay * 2 ^ (k - 1) + (byte_val (rnd k) mod 201) * Millisecond).
Proof.
  intros Hk Hmax Hfail. unfold client_main.
  assert (Hatt : forall n j, attempts_of (failed_attempts rnd j n)
                             = seqZ j (Z.of_nat n)).
  { induction n as [|n IH]; intros j; [done|]. unfold failed_attempts.
    rewrite (seqZ_cons j (Z.of_nat (S n))) by lia.
    replace (Z.succ j) with (j + 1) by lia.
    replace (Z.pred (Z.of_nat (S n))) with (Z.of_nat n) by lia.
    cbn [flat_map app attempts_of]. f_equal. apply IH. }
  assert (Happ : forall a b, attempts_of (a ++ b)
                             = attempts_of a ++ attempts_of b).
  { intros a b. unfold attempts_of. by rewrite flat_map_app. }
  rewrite (retry_loop_failures maxRetries req net rnd (Z.to_nat (k - 1))
             1 (Z.to_nat maxRetries) None);
    [|lia|lia|done|lia|intros j Hj; apply Hfail; lia].
  set (err := match Z.to_nat (k - 1) with
              | O => None
              | S _ => snd (sendRequest
                              (net (1 + Z.of_nat (Z.to_nat (k - 1)) - 1)) req)
              end).
  replace (1 + Z.of_nat (Z.to_nat (k - 1))) with k by lia.
  destruct (Z.to_nat maxRetries - Z.to_nat (k - 1))%nat as [|fuel] eqn:Hfuel;
    [lia|].
  rewrite retry_loop_fail;
    [|lia|lia|unfold min_int64; lia|apply Hfail; lia].
  cbn [fst snd].
  exists (failed_attempts rnd 1 (Z.to_nat (k - 1))).
  eexists. split; [reflexivity|]. split.
  { rewrite Hatt. f_equal. lia. }
  split; [|split].
  - intros ->. rewrite retry_loop_stop by lia. cbn [fst snd attempts_of].
    split; [done|]. split; [|done].
    rewrite Happ, Hatt. cbn [attempts_of flat_map app].
    replace (Z.of_nat (Z.to_nat (maxRetries - 1))) with (maxRetries - 1)
      by lia.
    replace maxRetries with (maxRetries - 1 + 1) at 3 by lia.
    rewrite seqZ_app by lia. do 2 f_equal.
    replace (1 + (maxRetries - 1)) with maxRetries by lia. done.
  - intros Hlt. destruct fuel as [|fuel]; [lia|].
    destruct (retry_loop_first maxRetries req net rnd fuel (k + 1)
                (snd (sendRequest (net k) req)) ltac:(lia)) as [rest' ->].
    by exists rest'.
  - intros H36. apply retry_delay_exact. lia.
Qed.

Lemma C2_retry_controller_witness :
  1 <= 2 <= 3
  /\ 3 < max_int64
  /\ (forall j, 1 <= j <= 2 ->
        attempt_fails (fun _ => DialFails "connection refused")
                      (add_req (AInt 5) (AInt 7)) j)
  /\ exists pre rest,
       fst (client_main 3 (add_req (AInt 5) (AInt 7))
              (fun _ => DialFails "connection refused") (fun _ => "077"%char))
       = pre ++ Attempt 2 :: rest
       /\ attempts_of pre = seqZ 1 (2 - 1).
Proof.
  assert (H1 : 1 <= 2 <= 3) by lia.
  assert (H2 : 3 < max_int64) by reflexivity.
  assert (H3 : forall j, 1 <= j <= 2 ->
                 attempt_fails (fun _ => DialFails "connection refused")
                               (add_req (AInt 5) (AInt 7)) j)
    by (intros j _; discriminate).
  split; [exact H1|]. split; [exact H2|]. split; [exact H3|].
  destruct (C2_retry_controller 3 (add_req (AInt 5) (AInt 7))
              (fun _ => DialFails "connection refused")
              (fun _ => "077"%char) 2 H1 H2 H3)
    as (pre & rest & Htr & Hpre & _).
  exists pre, rest. split; [exact Htr|exact Hpre].
Defined.

(** C2 as stated fails twice: after the last attempt the client still
    sleeps before it gives up, and from attempt 37 on the delay is not
    [base_delay * 2^(k-1)] plus the jitter (the product overflows). *)
Lemma C2_sleeps_after_last_attempt :
  client_main 1 (add_req (AInt 5) (AInt 7))
    (fun _ => DialFails "connection refused") (fun _ => "200"%char)
  = ([Attempt 1; Slept (400 * Millisecond)],
     Fatal (Some "dial error: connection refused"))
  /\ retry_delay 37 "000"
     <> base_delay * 2 ^ (37 - 1) + (byte_val "000" mod 201) * Millisecond.
Proof. split; [reflexivity|]. vm_compute. discriminate. Qed.

(** The loop of [main] ends within its iteration budget. *)
Lemma retry_loop_finishes
  (maxRetries : Z) (req : Request.t) (net : Z -> exchange) (rnd : Z -> ascii)
  (fuel : nat) :
  forall (k : Z) (lastErr : error),
    1 <= k -> maxRetries < max_int64 ->
    maxRetries - k + 1 <= Z.of_nat fuel ->
    snd (retry_loop maxRetries req net rnd fuel k lastErr) <> Unfinished.
Proof.
  induction fuel as [|fuel IH]; intros k lastErr Hk Hmax Hfuel;
    cbn [retry_loop]; destruct (Z.leb_spec k maxRetries); try done; [lia|].
  destruct (sendRequest (net k) req) as [r [e|]]; [|done].
  rewrite wrap64_id by (unfold in_int64, max_int64, min_int64 in *; lia).
  specialize (IH (k + 1) (Some e) ltac:(lia) Hmax ltac:(lia)).
  by destruct (retry_loop maxRetries req net rnd fuel (k + 1) (Some e)).
Qed.

Lemma client_main_finishes
  (maxRetries : Z) (req : Request.t) (net : Z -> exchange)
  (rnd : Z -> ascii) :
  maxRetries < max_int64 ->
  snd (client_main maxRetries req net rnd) <> Unfinished.
Proof.
  intros Hmax. unfold client_main. apply retry_loop_finishes; lia.
Qed.

(* ===================================================================== *)
(** ** The library models on plain cases *)

(** On a string of ASCII bytes [strings.ToLower] is the byte loop of the
    library's fast path, whatever the case table says. *)
Lemma ToLower_ascii (unicode_lower : rune -> rune) (s : string) :
  is_ascii s = true -> ToLower unicode_lower s = lower_bytes s.
Proof.
  unfold ToLower, Map, runes_of_string.
  induction s as [|c s IH]; [done|]. cbn [is_ascii].
  intros [Hc Hs]%andb_prop. apply Z.ltb_lt in Hc.
  pose proof (byte_val_range c) as Hr.
  cbn [decode_from DecodeRuneInString].
  destruct (Z.ltb_spec (byte_val c) 128) as [_|?]; [|lia].
  cbn [Nat.sub map fst List.filter lower_bytes].
  assert (Hlow : lower_rune unicode_lower (byte_val c)
                 = byte_val (lower_byte c)).
  { unfold lower_rune, lower_byte.
    destruct (Z.leb_spec (byte_val c) 127) as [_|?]; [|lia].
    destruct ((65 <=? byte_val c) && (byte_val c <=? 90)) eqn:Hup; [|done].
    apply andb_prop in Hup as [H1%Z.leb_le H2%Z.leb_le].
    rewrite byte_val_of; lia. }
  rewrite Hlow. pose proof (byte_val_range (lower_byte c)) as Hr'.
  assert (Hsmall : byte_val (lower_byte c) < 128).
  { unfold lower_byte.
    destruct ((65 <=? byte_val c) && (byte_val c <=? 90)) eqn:Hup; [|done].
    apply andb_prop in Hup as [H1%Z.leb_le H2%Z.leb_le].
    rewrite byte_val_of; lia. }
  destruct (Z.leb_spec 0 (byte_val (lower_byte c))) as [_|?]; [|lia].
  cbn [string_of_runes]. unfold encode_rune.
  destruct (Z.leb_spec 0 (byte_val (lower_byte c))) as [_|?]; [|lia].
  destruct (Z.leb_spec (byte_val (lower_byte c)) 127) as [_|?]; [|lia].
  cbn [andb bytes map string_of_list_ascii].
  rewrite byte_of_val.
  change (String (lower_byte c) "" +:+ ?t) with (String (lower_byte c) t).
  f_equal. by apply IH.
Qed.

Example ToLower_mixed_case :
  ToLower no_case "Reverse_STRING" = "reverse_string".
Proof. reflexivity. Qed.

(** U+00C9 (two bytes) goes through the case table, here to U+00E9. *)
Example ToLower_table :
  ToLower (fun r => if r =? 0xC9 then 0xE9 else r) (bytes [0xC3; 0x89; 0x41])
  = bytes [0xC3; 0xA9; 0x61].
Proof. reflexivity. Qed.

Example TrimSpace_ascii :
  TrimSpace (bytes [0x20; 0x09; 0x61; 0x20; 0x62; 0x0D; 0x0A]) = "a b".
Proof. reflexivity. Qed.

(** A no-break space (C2 A0) in front and an em space (E2 80 83) behind. *)
Example TrimSpace_unicode :
  TrimSpace (bytes [0xC2; 0xA0; 0x61; 0x62; 0x63; 0xE2; 0x80; 0x83]) = "abc".
Proof. reflexivity. Qed.

Example TrimSpace_all_space : TrimSpace "   " = "".
Proof. reflexivity. Qed.

Example TrimSpace_keeps_ill_formed :
  TrimSpace (bytes [0x20; 0xFF; 0x20]) = bytes [0xFF].
Proof. reflexivity. Qed.

Example Atoi_cases :
  map Atoi ["12"; "-12"; "+7"; "007"; ""; "-"; "2.5"; " 5"; "1e3"; "0x10";
            "9223372036854775807"; "9223372036854775808";
            "-9223372036854775808"; "-9223372036854775809"]
  = [Some 12; Some (-12); Some 7; Some 7; None; None; None; None; None; None;
     Some 9223372036854775807; None;
     Some (-9223372036854775808); None].
Proof. reflexivity. Qed.

Example runes_of_ill_formed :
  runes_of_string (bytes [0x68; 0xC3; 0xA9; 0xC0; 0x80; 0xED; 0xA0; 0x80;
                          0xF0; 0x9F; 0x98; 0x80; 0xE2; 0x82])
  = [0x68; 0xE9; RuneError; RuneError; RuneError; RuneError; RuneError;
     0x1F600; RuneError; RuneError].
Proof. reflexivity. Qed.

Example int_of_float64_cases :
  map int_of_float64
      [f5_9; S754_finite true 6642809450371482 (-50); S754_zero true;
       S754_finite false 5 0; f2p62]
  = [5; -5; 0; 5; 2 ^ 62].
Proof. reflexivity. Qed.

(* ===================================================================== *)
(** ** The scenarios of the specification *)

(** [add] with [{"a": 5, "b": 7}] on a healthy server: result 12, status
    OK, after one attempt. *)
Example scenario_add :
  handleConn no_case noon
    (inr (call "add" (Some {[ "a" := AFloat64 (S754_finite false 5 0);
                              "b" := AFloat64 (S754_finite false 7 0) ]})))
  = [Dispatch
       (call "add" (Some {[ "a" := AFloat64 (S754_finite false 5 0);
                            "b" := AFloat64 (S754_finite false 7 0) ]}));
     ConnWrite (ok_payload "3f2c9a1e-0000-4000-8000-000000000001" (AInt 12));
     ConnClose]
  /\ client_main 1 (call "add" None)
       (fun _ => Receives
                   (Response.mk "3f2c9a1e-0000-4000-8000-000000000001"
                                (AFloat64 (S754_finite false 12 0)) "OK" ""))
       (fun _ => "000"%char)
     = ([Attempt 1],
        Printed (Some (Response.mk "3f2c9a1e-0000-4000-8000-000000000001"
                         (AFloat64 (S754_finite false 12 0)) "OK" ""))).
Proof. split; reflexivity. Qed.

(** [slow] with a timeout shorter than the sleep, three attempts allowed:
    every attempt times out and the client gives up after exactly three. *)
Example scenario_slow_times_out :
  client_main 3
    (call "slow" (Some {[ "sleep" := AFloat64 (S754_finite false 5 0) ]}))
    (fun _ => ReceiveFails "i/o timeout") (fun _ => "000"%char)
  = ([Attempt 1; Slept (200 * Millisecond);
      Attempt 2; Slept (400 * Millisecond);
      Attempt 3; Slept (800 * Millisecond)],
     Fatal (Some "decode/receive: i/o timeout")).
Proof. reflexivity. Qed.

(** [crash]: the dispatcher does not know the method, the error response is
    written and the process exits; later calls cannot connect. *)
Example scenario_crash :
  handleConn no_case noon (inr (call "crash" None))
  = [Dispatch (call "crash" None);
     ConnWrite [("request_id",
                 FString "3f2c9a1e-0000-4000-8000-000000000001");
                ("status", FString "ERROR");
                ("error", FString "unknown method 'crash'")];
     OsExit 1].
Proof. reflexivity. Qed.

(* ===================================================================== *)
(** ** Strings of ASCII bytes *)

Lemma string_app_assoc (a b c : string) : (a +:+ b) +:+ c = a +:+ (b +:+ c).
Proof.
  induction a as [|x a IH]; [done|].
  change (String x a +:+ b) with (String x (a +:+ b)).
  change (String x (a +:+ b) +:+ c) with (String x ((a +:+ b) +:+ c)).
  change (String x a +:+ (b +:+ c)) with (String x (a +:+ (b +:+ c))).
  by rewrite IH.
Qed.

Lemma string_app_nil_r (a : string) : a +:+ "" = a.
Proof.
  induction a as [|x a IH]; [done|].
  change (String x a +:+ "") with (String x (a +:+ "")). by rewrite IH.
Qed.

Lemma list_ascii_of_app (a b : string) :
  list_ascii_of_string (a +:+ b)
  = list_ascii_of_string a ++ list_ascii_of_string b.
Proof.
  induction a as [|x a IH]; [done|].
  change (String x a +:+ b) with (String x (a +:+ b)).
  cbn [list_ascii_of_string app]. by rewrite IH.
Qed.

Lemma string_of_list_ascii_app (l k : list ascii) :
  string_of_list_ascii (l ++ k)
  = string_of_list_ascii l +:+ string_of_list_ascii k.
Proof.
  induction l as [|x l IH]; [done|].
  cbn [app string_of_list_ascii].
  change (String x ?a +:+ ?b) with (String x (a +:+ b)). by rewrite IH.
Qed.

Lemma is_ascii_forall (s : string) :
  is_ascii s = true
  <-> Forall (fun c => byte_val c < 0x80) (list_ascii_of_string s).
Proof.
  induction s as [|c s IH]; cbn [is_ascii list_ascii_of_string].
  - split; [constructor|done].
  - rewrite andb_true_iff, Z.ltb_lt, IH, Forall_cons. tauto.
Qed.

(** Every ASCII byte is a rune of its own. *)
Lemma decode_from_ascii (s : string) :
  is_ascii s = true ->
  decode_from 0 s
  = map ascii_seg (list_ascii_of_string s).
Proof.
  induction s as [|c s IH]; [done|]. cbn [is_ascii].
  intros [Hc Hs]%andb_prop. apply Z.ltb_lt in Hc.
  cbn [decode_from DecodeRuneInString list_ascii_of_string map].
  destruct (Z.ltb_spec (byte_val c) 128) as [_|?]; [|lia].
  cbn [Nat.sub]. f_equal. by apply IH.
Qed.

Lemma runes_of_ascii (s : string) :
  is_ascii s = true ->
  runes_of_string s = map byte_val (list_ascii_of_string s).
Proof.
  intros Hs. unfold runes_of_string. rewrite decode_from_ascii by done.
  rewrite map_map. done.
Qed.

Lemma encode_rune_ascii (c : ascii) :
  byte_val c < 0x80 -> encode_rune (byte_val c) = String c "".
Proof.
  intros Hc. pose proof (byte_val_range c). unfold encode_rune.
  destruct (Z.leb_spec 0 (byte_val c)) as [_|?]; [|lia].
  destruct (Z.leb_spec (byte_val c) 127) as [_|?]; [|lia].
  cbn [andb bytes map string_of_list_ascii]. by rewrite byte_of_val.
Qed.

Lemma string_of_ascii_runes (l : list ascii) :
  Forall (fun c => byte_val c < 0x80) l ->
  string_of_runes (map byte_val l) = string_of_list_ascii l.
Proof.
  induction 1 as [|c l Hc _ IH]; [done|].
  cbn [map string_of_runes string_of_list_ascii].
  rewrite encode_rune_ascii, IH by done. done.
Qed.

(** An ASCII string is well-formed UTF-8. *)
Lemma ValidString_ascii (s : string) :
  is_ascii s = true -> ValidString s = true.
Proof.
  intros Hs. unfold ValidString. rewrite decode_from_ascii by done.
  apply forallb_forall. intros [r n] Hin%in_map_iff.
  destruct Hin as (c & [= <- <-] & Hc). cbn [fst snd].
  apply is_ascii_forall in Hs. rewrite Forall_forall in Hs.
  rewrite <- list_elem_of_In in Hc. specialize (Hs c Hc).
  unfold RuneError. destruct (Z.eqb_spec (byte_val c) 65533); [lia|done].
Qed.

(* ===================================================================== *)
(** ** [strings.TrimSpace] on ASCII strings *)

Lemma substring_middle (a b c : string) :
  substring (String.length a) (String.length b) (a +:+ b +:+ c) = b.
Proof.
  induction a as [|x a IH].
  - change ("" +:+ b +:+ c) with (b +:+ c). cbn [String.length].
    induction b as [|y b IHb].
    + by destruct c.
    + change (String y b +:+ c) with (String y (b +:+ c)).
      cbn [String.length substring]. by rewrite IHb.
  - change (String x a +:+ b +:+ c) with (String x (a +:+ b +:+ c)).
    cbn [String.length substring]. exact IH.
Qed.

Lemma leading_space_spaces (l : list ascii) (rest : list (rune * nat)) :
  forallb ascii_space l = true ->
  leading_space (map ascii_seg l ++ rest)
  = (length l + leading_space rest)%nat
  /\ drop_space (map ascii_seg l ++ rest)
     = drop_space rest.
Proof.
  induction l as [|c l IH]; [done|]. cbn [forallb].
  intros [Hc Hl]%andb_prop. unfold ascii_space in Hc.
  apply andb_prop in Hc as [_ Hc].
  cbn [map app]. unfold ascii_seg at 1 3.
  cbn [leading_space drop_space length]. rewrite Hc.
  destruct (IH Hl) as [-> ->]. done.
Qed.

Lemma leading_space_visible (c : ascii) (rest : list (rune * nat)) :
  visible c = true ->
  leading_space (ascii_seg c :: rest) = 0%nat
  /\ drop_space (ascii_seg c :: rest) = ascii_seg c :: rest.
Proof.
  unfold visible. intros [_ Hc%negb_true_iff]%andb_prop.
  unfold ascii_seg. cbn [leading_space drop_space]. by rewrite Hc.
Qed.

(** White space around a string of ASCII bytes that starts and ends with a
    visible one is all that [TrimSpace] removes. *)
Lemma TrimSpace_padded (pre id post : string) :
  forallb ascii_space (list_ascii_of_string pre) = true ->
  forallb ascii_space (list_ascii_of_string post) = true ->
  is_ascii id = true ->
  (exists c, first_byte id = Some c /\ visible c = true) ->
  (exists c, last_byte id = Some c /\ visible c = true) ->
  TrimSpace (pre +:+ id +:+ post) = id.
Proof.
  intros Hpre Hpost Hid (cf & Hf & Hvf) (cl & Hl & Hvl).
  assert (Hsp : forall l, forallb ascii_space l = true ->
                          Forall (fun c => byte_val c < 0x80) l).
  { intros l Hl'. apply Forall_forall. intros c Hc.
    rewrite forallb_forall in Hl'. rewrite list_elem_of_In in Hc.
    specialize (Hl' c Hc). unfold ascii_space in Hl'.
    apply andb_prop in Hl' as [H%Z.ltb_lt _]. exact H. }
  assert (Hall : is_ascii (pre +:+ id +:+ post) = true).
  { apply is_ascii_forall. rewrite !list_ascii_of_app.
    rewrite !Forall_app. repeat split; auto. by apply is_ascii_forall. }
  unfold TrimSpace. rewrite decode_from_ascii by done.
  rewrite !list_ascii_of_app, !map_app.
  unfold first_byte in Hf. unfold last_byte in Hl.
  destruct (list_ascii_of_string id) as [|c0 li] eqn:Eid; [done|].
  cbn [head] in Hf. injection Hf as ->.
  destruct (leading_space_spaces (list_ascii_of_string pre)
              (map ascii_seg (cf :: li)
               ++ map ascii_seg (list_ascii_of_string post))
              Hpre) as [-> ->].
  cbn [map app].
  destruct (leading_space_visible cf
              (map ascii_seg li
               ++ map ascii_seg (list_ascii_of_string post)) Hvf)
    as [-> ->].
  change (ascii_seg cf :: map ascii_seg li
          ++ map ascii_seg (list_ascii_of_string post))
    with (map ascii_seg (cf :: li)
          ++ map ascii_seg (list_ascii_of_string post)).
  rewrite rev_app_distr, <- !map_rev.
  assert (Hrev : exists l', rev (cf :: li) = cl :: l').
  { destruct (exists_last (l := cf :: li) ltac:(done)) as (l' & x & E).
    rewrite E in Hl. rewrite last_snoc in Hl. injection Hl as ->.
    exists (rev l'). rewrite E, rev_app_distr. done. }
  destruct Hrev as (l' & ->).
  assert (Hpost' : forallb ascii_space (rev (list_ascii_of_string post))
                   = true).
  { apply forallb_forall. intros c Hc%in_rev.
    rewrite forallb_forall in Hpost. by apply Hpost. }
  destruct (leading_space_spaces _ (map ascii_seg (cl :: l')) Hpost') as [-> _].
  cbn [map].
  destruct (leading_space_visible cl (map ascii_seg l') Hvl) as [-> _].
  rewrite length_rev, !string_length_app.
  assert (Elen : forall s, length (list_ascii_of_string s) = String.length s).
  { induction s as [|x s IH]; [done|]. cbn. by rewrite IH. }
  rewrite !Elen.
  replace (String.length pre + (String.length id + String.length post)
           - (String.length pre + 0) - (String.length post + 0))%nat
    with (String.length id) by lia.
  rewrite Nat.add_0_r. apply substring_middle.
Qed.

(* ===================================================================== *)
(** ** More on [reverseString] *)

Lemma string_of_runes_app (a b : list rune) :
  string_of_runes (a ++ b) = string_of_runes a +:+ string_of_runes b.
Proof.
  induction a as [|r a IH]; [done|].
  cbn [app string_of_runes]. by rewrite IH, string_app_assoc.
Qed.

Lemma runes_of_string_app_runes (rs : list rune) (b : string) :
  Forall scalar rs ->
  runes_of_string (string_of_runes rs +:+ b) = rs ++ runes_of_string b.
Proof.
  induction 1 as [|r rs Hr _ IH]; [done|].
  cbn [string_of_runes app]. rewrite string_app_assoc.
  rewrite runes_of_string_cons by done. by rewrite IH.
Qed.

(** The runes of a concatenation, the first part being well-formed. *)
Lemma runes_of_string_app (a b : string) :
  ValidString a = true ->
  runes_of_string (a +:+ b) = runes_of_string a ++ runes_of_string b.
Proof.
  intros Ha. rewrite <- (string_of_runes_of_string a Ha) at 1.
  apply runes_of_string_app_runes, runes_of_string_scalar.
Qed.

(** Encoding scalar values gives well-formed UTF-8. *)
Lemma ValidString_of_runes (rs : list rune) :
  Forall scalar rs -> ValidString (string_of_runes rs) = true.
Proof.
  induction 1 as [|r rs Hr _ IH]; [done|].
  unfold ValidString in *. cbn [string_of_runes].
  rewrite decode_from_rune with (r := r);
    [|apply encode_rune_length|by apply decode_encode_rune].
  cbn [forallb fst snd]. rewrite IH, andb_true_r.
  destruct (Z.eqb_spec r RuneError) as [->|]; [|done].
  reflexivity.
Qed.

Lemma string_of_runes_rev_length (rs : list rune) :
  String.length (string_of_runes (rev rs))
  = String.length (string_of_runes rs).
Proof.
  induction rs as [|r rs IH]; [done|].
  cbn [rev string_of_runes].
  rewrite string_of_runes_app, !string_length_app, IH.
  cbn [string_of_runes]. rewrite string_app_nil_r. lia.
Qed.

(** X1: whatever the bytes of [s], [reverseString s] returns a well-formed
    UTF-8 string whose runes are the runes of [s] in reverse order. *)
Theorem reverseString_runes (s : string) :
  exists s',
    reverseString s = Ret s'
    /\ runes_of_string s' = rev (runes_of_string s)
    /\ ValidString s' = true.
Proof.
  eexists. split; [apply reverseString_rev|].
  assert (Hsc : Forall scalar (rev (runes_of_string s)))
    by apply Forall_rev, runes_of_string_scalar.
  split; [by apply runes_of_string_of_runes|by apply ValidString_of_runes].
Qed.

(** X2: on well-formed UTF-8 the reversed string has as many bytes as the
    input. *)
Theorem reverseString_length (s s' : string) :
  ValidString s = true ->
  reverseString s = Ret s' ->
  String.length s' = String.length s.
Proof.
  intros Hv. rewrite reverseString_rev. intros [= <-].
  rewrite string_of_runes_rev_length. by rewrite string_of_runes_of_string.
Qed.

Lemma reverseString_length_witness :
  ValidString (bytes [0x68; 0xC3; 0xA9; 0xE2; 0x82; 0xAC]) = true
  /\ reverseString (bytes [0x68; 0xC3; 0xA9; 0xE2; 0x82; 0xAC])
     = Ret (bytes [0xE2; 0x82; 0xAC; 0xC3; 0xA9; 0x68])
  /\ String.length (bytes [0xE2; 0x82; 0xAC; 0xC3; 0xA9; 0x68])
     = String.length (bytes [0x68; 0xC3; 0xA9; 0xE2; 0x82; 0xAC]).
Proof.
  assert (Hv : ValidString (bytes [0x68; 0xC3; 0xA9; 0xE2; 0x82; 0xAC])
               = true) by reflexivity.
  assert (Hr : reverseString (bytes [0x68; 0xC3; 0xA9; 0xE2; 0x82; 0xAC])
               = Ret (bytes [0xE2; 0x82; 0xAC; 0xC3; 0xA9; 0x68]))
    by reflexivity.
  exact (conj Hv (conj Hr (reverseString_length _ _ Hv Hr))).
Defined.

(** X3: on a string of ASCII bytes [reverseString] reverses the bytes. *)
Theorem reverseString_ascii (s : string) :
  is_ascii s = true -> reverseString s = Ret (reverse_bytes s).
Proof.
  intros Hs. rewrite reverseString_rev. f_equal. unfold reverse_bytes.
  rewrite runes_of_ascii by done. rewrite <- map_rev.
  apply string_of_ascii_runes, Forall_rev. by apply is_ascii_forall.
Qed.

Lemma reverseString_ascii_witness :
  is_ascii "get_time" = true
  /\ reverseString "get_time" = Ret (reverse_bytes "get_time").
Proof.
  assert (H : is_ascii "get_time" = true) by reflexivity.
  exact (conj H (reverseString_ascii "get_time" H)).
Defined.

(** X4: reversing a concatenation whose first part is well-formed UTF-8
    gives the reversed second part followed by the reversed first part. *)
Theorem reverseString_app (a b ra rb : string) :
  ValidString a = true ->
  reverseString a = Ret ra ->
  reverseString b = Ret rb ->
  reverseString (a +:+ b) = Ret (rb +:+ ra).
Proof.
  intros Hv. rewrite !reverseString_rev. intros [= <-] [= <-].
  rewrite runes_of_string_app by done.
  by rewrite rev_app_distr, string_of_runes_app.
Qed.

Lemma reverseString_app_witness :
  ValidString (bytes [0x61; 0xC3; 0xA9]) = true
  /\ reverseString (bytes [0x61; 0xC3; 0xA9]) = Ret (bytes [0xC3; 0xA9; 0x61])
  /\ reverseString (bytes [0xFF; 0x62]) = Ret (bytes [0x62; 0xEF; 0xBF; 0xBD])
  /\ reverseString (bytes [0x61; 0xC3; 0xA9] +:+ bytes [0xFF; 0x62])
     = Ret (bytes [0x62; 0xEF; 0xBF; 0xBD] +:+ bytes [0xC3; 0xA9; 0x61]).
Proof.
  assert (Hv : ValidString (bytes [0x61; 0xC3; 0xA9]) = true) by reflexivity.
  assert (Ha : reverseString (bytes [0x61; 0xC3; 0xA9])
               = Ret (bytes [0xC3; 0xA9; 0x61])) by reflexivity.
  assert (Hb : reverseString (bytes [0xFF; 0x62])
               = Ret (bytes [0x62; 0xEF; 0xBF; 0xBD])) by reflexivity.
  exact (conj Hv (conj Ha (conj Hb (reverseString_app _ _ _ _ Hv Ha Hb)))).
Defined.

(* ===================================================================== *)
(** ** More on the dispatcher *)

Lemma processRequest_reverse
  (unicode_lower : rune -> rune) (now : string) (req : Request.t) :
  ToLower unicode_lower (Request.Method req) = "reverse_string" ->
  processRequest unicode_lower now req
  = match param (Request.Params req) "s" with
    | None =>
      ([], Response.mk (Request.RequestID req) ANil "ERROR"
             "missing param 's'")
    | Some (AString s) =>
      ([], Response.mk (Request.RequestID req)
             (AString (string_of_runes (rev (runes_of_string s)))) "OK" "")
    | Some _ =>
      ([], Response.mk (Request.RequestID req) ANil "ERROR"
             "param 's' must be string")
    end.
Proof.
  intros Hm. unfold processRequest. rewrite Hm.
  change ("reverse_string" =? "add")%string with false.
  change ("reverse_string" =? "reverse_string")%string with true.
  cbv iota.
  destruct (param _ "s") as [[]|]; try done.
  by rewrite reverseString_rev.
Qed.

(** X5: the [reverse_string] handler answers ["missing param 's'"] when the
    params have no [s], ["param 's' must be string"] when [s] is anything
    but a string (numbers are not converted), and otherwise OK with a
    well-formed string whose runes are those of [s] in reverse order; it has
    no other effect. *)
Theorem reverse_string_handler
  (unicode_lower : rune -> rune) (now : string) (req : Request.t) :
  ToLower unicode_lower (Request.Method req) = "reverse_string" ->
  (param (Request.Params req) "s" = None ->
   processRequest unicode_lower now req
   = ([], Response.mk (Request.RequestID req) ANil "ERROR"
            "missing param 's'"))
  /\ (forall v,
         param (Request.Params req) "s" = Some v ->
         (forall s, v <> AString s) ->
         processRequest unicode_lower now req
         = ([], Response.mk (Request.RequestID req) ANil "ERROR"
                  "param 's' must be string"))
  /\ (forall s,
         param (Request.Params req) "s" = Some (AString s) ->
         exists s',
           processRequest unicode_lower now req
           = ([], Response.mk (Request.RequestID req) (AString s') "OK" "")
           /\ runes_of_string s' = rev (runes_of_string s)
           /\ ValidString s' = true).
Proof.
  intros Hm. rewrite processRequest_reverse by done.
  split; [|split].
  - by intros ->.
  - intros v -> Hv. destruct v; try done. by destruct (Hv s).
  - intros s ->. eexists. split; [reflexivity|].
    assert (Hsc : Forall scalar (rev (runes_of_string s)))
      by apply Forall_rev, runes_of_string_scalar.
    split; [by apply runes_of_string_of_runes|by apply ValidString_of_runes].
Qed.

Lemma reverse_string_handler_witness :
  ToLower no_case
    (Request.Method (call "Reverse_String" (Some {[ "s" := AInt 5 ]})))
  = "reverse_string"
  /\ processRequest no_case noon
       (call "Reverse_String" (Some {[ "s" := AInt 5 ]}))
     = ([], Response.mk "3f2c9a1e-0000-4000-8000-000000000001" ANil "ERROR"
              "param 's' must be string").
Proof.
  assert (Hm : ToLower no_case
                 (Request.Method
                    (call "Reverse_String" (Some {[ "s" := AInt 5 ]})))
               = "reverse_string") by reflexivity.
  split; [exact Hm|].
  apply (proj1 (proj2 (reverse_string_handler no_case noon _ Hm)) (AInt 5));
    [reflexivity|discriminate].
Defined.

(** X6: the order in which [add] reports what is wrong with its params: a
    missing [a], then a missing [b], then an [a] that is not an integer,
    then a [b] that is not an integer; each message names the key. *)
Theorem add_error_precedence
  (unicode_lower : rune -> rune) (now : string) (req : Request.t) :
  ToLower unicode_lower (Request.Method req) = "add" ->
  let answer := processRequest unicode_lower now req in
  let failure msg :=
    ([], Response.mk (Request.RequestID req) ANil "ERROR" msg) in
  (param (Request.Params req) "a" = None ->
   answer = failure "missing param 'a'")
  /\ (forall va,
         param (Request.Params req) "a" = Some va ->
         param (Request.Params req) "b" = None ->
         answer = failure "missing param 'b'")
  /\ (forall va vb,
         param (Request.Params req) "a" = Some va ->
         param (Request.Params req) "b" = Some vb ->
         not_integer va ->
         answer = failure "param 'a' error: not an integer")
  /\ (forall va vb a,
         param (Request.Params req) "a" = Some va ->
         param (Request.Params req) "b" = Some vb ->
         int_coercible va a -> not_integer vb ->
         answer = failure "param 'b' error: not an integer").
Proof.
  intros Hm. cbv zeta. rewrite processRequest_add by done.
  unfold getTwoInts. repeat split.
  - by intros ->.
  - by intros va -> ->.
  - intros va vb -> -> Hn. by rewrite (asInt_not_integer _ Hn).
  - intros va vb a -> -> Hc Hn.
    by rewrite (asInt_coercible _ _ Hc), (asInt_not_integer _ Hn).
Qed.

Lemma add_error_precedence_witness :
  ToLower no_case (Request.Method (add_req (ABool true) ANil)) = "add"
  /\ processRequest no_case noon (add_req (ABool true) ANil)
     = ([], Response.mk "id-1" ANil "ERROR" "param 'a' error: not an integer").
Proof.
  assert (Hm : ToLower no_case (Request.Method (add_req (ABool true) ANil))
               = "add") by reflexivity.
  split; [exact Hm|].
  apply (proj1 (proj2 (proj2 (add_error_precedence no_case noon _ Hm)))
           (ABool true) ANil); [reflexivity|reflexivity|constructor].
Defined.

(** X7: [slow] never answers with an error.  It sleeps 5 seconds unless
    [sleep] is a [float64] or a string [Atoi] reads: a missing [sleep], a
    null, a boolean, an [int], an array, an object or any other string leave
    the default; a string that [Atoi] reads as [z] makes it [z] seconds, and
    the result text reports the number used. *)
Theorem slow_seconds
  (unicode_lower : rune -> rune) (now : string) (req : Request.t) :
  ToLower unicode_lower (Request.Method req) = "slow" ->
  (exists secs,
      processRequest unicode_lower now req
      = ([TimeSleep (wrap64 (secs * Second))],
         Response.mk (Request.RequestID req)
           (AString ("slept " +:+ format_int secs +:+ " seconds")) "OK" "")
      /\ secs = slow_secs (Request.Params req))
  /\ (param (Request.Params req) "sleep" = None ->
      slow_secs (Request.Params req) = 5)
  /\ (forall v,
         param (Request.Params req) "sleep" = Some v ->
         not_integer v \/ (exists z, v = AInt z) ->
         slow_secs (Request.Params req) = 5)
  /\ (forall s z,
         param (Request.Params req) "sleep" = Some (AString s) ->
         Atoi s = Some z ->
         slow_secs (Request.Params req) = z)
  /\ (- 9223372036 <= slow_secs (Request.Params req) <= 9223372036 ->
      wrap64 (slow_secs (Request.Params req) * Second)
      = slow_secs (Request.Params req) * Second).
Proof.
  intros Hm. rewrite processRequest_slow by done. unfold slow_secs.
  split; [by eexists|]. split; [by intros ->|]. split; [|split].
  - intros v -> [Hn|[z ->]]; [|done].
    destruct Hn as [| |s Hs| |]; try done. by rewrite Hs.
  - intros s z -> Hs. by rewrite Hs.
  - intros Hr. apply wrap64_id.
    unfold in_int64, min_int64, max_int64, Second. lia.
Qed.

Lemma slow_seconds_witness :
  ToLower no_case (Request.Method (slow_req (AInt 1))) = "slow"
  /\ slow_secs (Request.Params (slow_req (AInt 1))) = 5.
Proof.
  assert (Hm : ToLower no_case (Request.Method (slow_req (AInt 1))) = "slow")
    by reflexivity.
  split; [exact Hm|].
  apply (proj1 (proj2 (proj2 (slow_seconds no_case noon _ Hm))) (AInt 1));
    [reflexivity|right; by exists 1].
Defined.

Lemma processRequest_effects
  (unicode_lower : rune -> rune) (now : string) (req : Request.t) :
  fst (processRequest unicode_lower now req)
  = if String.eqb (ToLower unicode_lower (Request.Method req)) "slow"
    then [TimeSleep (wrap64 (slow_secs (Request.Params req) * Second))]
    else [].
Proof.
  destruct (String.eqb_spec (ToLower unicode_lower (Request.Method req))
                            "slow") as [Hm|Hm].
  - by rewrite processRequest_slow.
  - unfold processRequest. apply String.eqb_neq in Hm. rewrite Hm.
    repeat match goal with
           | |- context [if ?c then _ else _] => destruct c
           end; try done.
    + by destruct (getTwoInts _ _ _) as [[a b] [e|]].
    + destruct (param _ "s") as [[]|]; try done.
      by rewrite reverseString_rev.
Qed.

(** X8: the dispatcher does nothing to the outside world except for the one
    sleep of [slow]: for every other method it has no effect at all, and in
    no case does it write, close the connection or end the process (so
    [reverseString] cannot panic in it). *)
Theorem dispatcher_effects
  (unicode_lower : rune -> rune) (now : string) (req : Request.t) :
  let effects := fst (processRequest unicode_lower now req) in
  (ToLower unicode_lower (Request.Method req) <> "slow" -> effects = [])
  /\ (ToLower unicode_lower (Request.Method req) = "slow" ->
      effects
      = [TimeSleep (wrap64 (slow_secs (Request.Params req) * Second))])
  /\ (forall e, In e effects -> exists d, e = TimeSleep d).
Proof.
  cbv zeta. rewrite processRequest_effects.
  destruct (String.eqb_spec (ToLower unicode_lower (Request.Method req))
                            "slow") as [Hm|Hm].
  - split; [done|]. split; [done|].
    intros e [<-|[]]. by eexists.
  - split; [done|]. split; [done|]. intros e [].
Qed.

(* ===================================================================== *)
(** ** Method names and connections *)

Lemma lower_byte_ascii (c : ascii) :
  byte_val c < 0x80 -> byte_val (lower_byte c) < 0x80.
Proof.
  intros Hc. unfold lower_byte.
  destruct ((65 <=? byte_val c) && (byte_val c <=? 90)) eqn:Hup; [|done].
  apply andb_prop in Hup as [H1%Z.leb_le H2%Z.leb_le].
  rewrite byte_val_of; lia.
Qed.

Lemma lower_byte_idem (c : ascii) : lower_byte (lower_byte c) = lower_byte c.
Proof.
  pose proof (byte_val_range c) as Hr.
  destruct ((65 <=? byte_val c) && (byte_val c <=? 90)) eqn:Hup.
  - assert (E : lower_byte c = byte_of (byte_val c + 32))
      by (unfold lower_byte; by rewrite Hup).
    rewrite E. apply andb_prop in Hup as [H1%Z.leb_le H2%Z.leb_le].
    unfold lower_byte. rewrite byte_val_of by lia.
    destruct (Z.leb_spec (byte_val c + 32) 90); [lia|].
    by rewrite andb_false_r.
  - assert (E : lower_byte c = c) by (unfold lower_byte; by rewrite Hup).
    by rewrite !E.
Qed.

Lemma lower_bytes_ascii (s : string) :
  is_ascii s = true -> is_ascii (lower_bytes s) = true.
Proof.
  induction s as [|c s IH]; [done|]. cbn [is_ascii lower_bytes].
  intros [Hc%Z.ltb_lt Hs]%andb_prop. apply andb_true_intro. split.
  - apply Z.ltb_lt. by apply lower_byte_ascii.
  - by apply IH.
Qed.

Lemma lower_bytes_idem (s : string) :
  lower_bytes (lower_bytes s) = lower_bytes s.
Proof.
  induction s as [|c s IH]; [done|]. cbn [lower_bytes].
  by rewrite lower_byte_idem, IH.
Qed.

(** X9: method names are matched without regard to the case of ASCII
    letters: a request whose method is any ASCII spelling of one of the five
    names the dispatcher knows is answered exactly as the request spelled in
    lower case, whatever the case table says about other code points. *)
Theorem dispatch_ignores_case
  (unicode_lower unicode_lower' : rune -> rune) (now : string)
  (req : Request.t) (m : string) :
  is_ascii m = true ->
  lower_bytes m = Request.Method req ->
  In (Request.Method req)
     ["add"; "reverse_string"; "get_time"; "slow"; "echo"] ->
  processRequest unicode_lower now (with_Method m req)
  = processRequest unicode_lower' now req.
Proof.
  intros Hm Hlow Hin.
  assert (H1 : ToLower unicode_lower (Request.Method (with_Method m req))
               = Request.Method req).
  { cbn [with_Method Request.Method]. by rewrite ToLower_ascii. }
  assert (H2 : ToLower unicode_lower' (Request.Method req)
               = Request.Method req).
  { rewrite <- Hlow at 1. rewrite ToLower_ascii by by apply lower_bytes_ascii.
    by rewrite lower_bytes_idem. }
  unfold processRequest. rewrite H1, H2.
  cbn [with_Method Request.RequestID Request.Params].
  cbn [In] in Hin.
  destruct Hin as [<-|[<-|[<-|[<-|[<-|[]]]]]]; reflexivity.
Qed.

Lemma dispatch_ignores_case_witness :
  is_ascii "Get_TIME" = true
  /\ lower_bytes "Get_TIME" = Request.Method (call "get_time" None)
  /\ processRequest (fun r => r + 1) noon
       (with_Method "Get_TIME" (call "get_time" None))
     = processRequest no_case noon (call "get_time" None).
Proof.
  assert (H1 : is_ascii "Get_TIME" = true) by reflexivity.
  assert (H2 : lower_bytes "Get_TIME" = Request.Method (call "get_time" None))
    by reflexivity.
  split; [exact H1|]. split; [exact H2|].
  apply (dispatch_ignores_case _ _ noon _ _ H1 H2). cbn. tauto.
Defined.

Ltac in_cases :=
  repeat match goal with
         | H : _ \/ _ |- _ => destruct H
         | H : False |- _ => destruct H
         | H : _ = _ |- _ =>
           discriminate H || (injection H; intros; subst; clear H)
         end.

(** X10: on every connection the server writes exactly one response.  The
    request reaches the dispatcher exactly when it was decoded.  The run
    ends by closing the connection, except for a request whose method is
    [crash] in lower case: there it ends by leaving the process with status
    1, the connection never closed by the handler. *)
Theorem handleConn_one_response
  (unicode_lower : rune -> rune) (now : string)
  (decoded : string + Request.t) :
  let tr := handleConn unicode_lower now decoded in
  let crash :=
    exists req, decoded = inr req
                /\ ToLower unicode_lower (Request.Method req) = "crash" in
  writes tr = 1%nat
  /\ (forall req, In (Dispatch req) tr <-> decoded = inr req)
  /\ (crash -> last tr = Some (OsExit 1) /\ ~ In ConnClose tr)
  /\ (~ crash -> last tr = Some ConnClose /\ forall c, ~ In (OsExit c) tr).
Proof.
  cbv zeta. destruct decoded as [err|req].
  - cbn [handleConn sendError app]. split; [reflexivity|].
    split; [|split].
    + intros req. cbn [In]. split; intros H; in_cases.
    + intros (req' & H & _). discriminate H.
    + intros _. split; [reflexivity|]. intros c H. cbn [In] in H. in_cases.
  - cbn [handleConn].
    pose proof (processRequest_effects unicode_lower now req) as Heff.
    destruct (processRequest unicode_lower now req) as [effects resp].
    cbn [fst] in Heff. subst effects.
    destruct (String.eqb_spec (ToLower unicode_lower (Request.Method req))
                              "crash") as [Hc|Hc].
    + rewrite Hc. change ("crash" =? "slow")%string with false.
      cbn [app]. split; [reflexivity|]. split; [|split].
      * intros req'. cbn [In]. split; intros H; in_cases; auto.
      * intros _. split; [reflexivity|]. intros H. cbn [In] in H. in_cases.
      * intros Hn. destruct Hn. by exists req.
    + assert (Hn : ~ (exists req', @inr string Request.t req = inr req'
                        /\ ToLower unicode_lower (Request.Method req')
                           = "crash"))
        by (intros (req' & [= <-] & H); done).
      destruct (_ =? "slow")%string; cbn [app];
        (split; [reflexivity|]); (split; [|split]).
      all: try (intros H; by destruct (Hn H)).
      all: try (intros req'; cbn [In]; split; intros H; in_cases; auto).
      all: intros _; split; [reflexivity|]; intros c H; cbn [In] in H;
        in_cases.
Qed.

(** X11: a request whose method is [crash] in lower case is given to the
    dispatcher, which has no such case: the error response for an unknown
    method, naming the method as the request spelled it, is written before
    the process exits with status 1. *)
Theorem crash_answer
  (unicode_lower : rune -> rune) (now : string) (req : Request.t) :
  ToLower unicode_lower (Request.Method req) = "crash" ->
  handleConn unicode_lower now (inr req)
  = [Dispatch req;
     ConnWrite [("request_id", FString (Request.RequestID req));
                ("status", FString "ERROR");
                ("error",
                 FString ("unknown method '" +:+ Request.Method req +:+ "'"))];
     OsExit 1].
Proof.
  intros Hm. cbn [handleConn].
  rewrite processRequest_unknown by (rewrite Hm; discriminate).
  rewrite Hm. reflexivity.
Qed.

Lemma crash_answer_witness :
  ToLower no_case (Request.Method (call "CRASH" None)) = "crash"
  /\ handleConn no_case noon (inr (call "CRASH" None))
     = [Dispatch (call "CRASH" None);
        ConnWrite [("request_id",
                    FString (Request.RequestID (call "CRASH" None)));
                   ("status", FString "ERROR");
                   ("error", FString ("unknown method '" +:+ "CRASH" +:+ "'"))];
        OsExit 1].
Proof.
  assert (Hm : ToLower no_case (Request.Method (call "CRASH" None)) = "crash")
    by reflexivity.
  exact (conj Hm (crash_answer no_case noon _ Hm)).
Defined.

(* ===================================================================== *)
(** ** Identifiers *)

Ltac each_byte c := destruct c as [[] [] [] [] [] [] [] []].

Lemma hex_digit_is_hex (c : ascii) :
  is_hex (hex_digit (Z.shiftr (byte_val c) 4)) = true
  /\ is_hex (hex_digit (Z.land (byte_val c) 0x0F)) = true.
Proof. each_byte c; split; reflexivity. Qed.

Lemma is_hex_visible (c : ascii) : is_hex c = true -> visible c = true.
Proof. each_byte c; intros H; solve [reflexivity | discriminate H]. Qed.

Lemma EncodeToString_length (b : list ascii) :
  String.length (EncodeToString b) = (2 * length b)%nat.
Proof.
  induction b as [|c b IH]; [done|].
  cbn [EncodeToString String.length length]. rewrite IH. lia.
Qed.

Lemma EncodeToString_hex (b : list ascii) :
  forallb is_hex (list_ascii_of_string (EncodeToString b)) = true.
Proof.
  induction b as [|c b IH]; [done|].
  cbn [EncodeToString list_ascii_of_string forallb].
  destruct (hex_digit_is_hex c) as [-> ->]. by rewrite IH.
Qed.

Lemma fill_length (n : nat) (rnd : list ascii) : length (fill n rnd) = n.
Proof.
  unfold fill. rewrite length_take, length_app, length_replicate. lia.
Qed.

Lemma fmt_x_exact (w : nat) (b : list ascii) :
  (2 * length b)%nat = w -> fmt_x w b = EncodeToString b.
Proof.
  intros <-. unfold fmt_x. rewrite EncodeToString_length, Nat.sub_diag.
  done.
Qed.

Lemma sixteen_bytes (l : list ascii) :
  length l = 16%nat ->
  exists x0 x1 x2 x3 x4 x5 x6 x7 x8 x9 x10 x11 x12 x13 x14 x15,
    l = [x0; x1; x2; x3; x4; x5; x6; x7; x8; x9; x10; x11; x12; x13; x14; x15].
Proof.
  intros H.
  do 16 (destruct l as [|? l]; [discriminate H|]).
  destruct l; [|discriminate H]. by repeat eexists.
Qed.

Lemma version_nibble (c : ascii) :
  hex_digit (Z.shiftr (byte_val (byte_of (Z.lor (Z.land (byte_val c) 0x0F)
                                                0x40))) 4) = "4"%char.
Proof. each_byte c; reflexivity. Qed.

Lemma variant_nibble (c : ascii) :
  In (hex_digit (Z.shiftr (byte_val (byte_of (Z.lor (Z.land (byte_val c) 0x3F)
                                                    0x80))) 4))
     ["8"; "9"; "a"; "b"]%char.
Proof. each_byte c; cbn; tauto. Qed.

(** The five groups of digits of a generated id. *)
Lemma genUUID_groups (rnd : list ascii) (nano : Z) :
  exists g1 g2 g3 g4 g5 : string,
    genUUID (Some rnd) nano
    = g1 +:+ "-" +:+ g2 +:+ "-" +:+ g3 +:+ "-" +:+ g4 +:+ "-" +:+ g5
    /\ map String.length [g1; g2; g3; g4; g5] = [8; 4; 4; 4; 12]%nat
    /\ Forall (fun g => forallb is_hex (list_ascii_of_string g) = true)
              [g1; g2; g3; g4; g5]
    /\ first_byte g3 = Some "4"%char
    /\ (exists c, first_byte g4 = Some c /\ In c ["8"; "9"; "a"; "b"]%char).
Proof.
  unfold genUUID.
  destruct (sixteen_bytes (fill 16 rnd) (fill_length 16 rnd))
    as (x0 & x1 & x2 & x3 & x4 & x5 & x6 & x7 & x8 & x9 & x10 & x11 & x12
        & x13 & x14 & x15 & ->).
  cbv zeta. unfold at_index.
  cbn [nth insert list_insert take drop firstn skipn].
  rewrite !fmt_x_exact by reflexivity.
  eexists _, _, _, _, _. split; [reflexivity|].
  split; [reflexivity|]. split.
  { repeat constructor; apply EncodeToString_hex. }
  split.
  - cbn [EncodeToString first_byte list_ascii_of_string head].
    by rewrite version_nibble.
  - eexists. split; [reflexivity|]. apply variant_nibble.
Qed.

(** X16: when the random source answers, [genUUID] returns 36 bytes: groups
    of 8, 4, 4, 4 and 12 lower-case hexadecimal digits with a dash after
    each of the first four groups (at offsets 8, 13, 18 and 23), the version
    digit 4 at offset 14 and one of 8, 9, a, b at offset 19. *)
Theorem genUUID_format (rnd : list ascii) (nano : Z) :
  let id := genUUID (Some rnd) nano in
  String.length id = 36%nat
  /\ (forall n c, get n id = Some c ->
        if dash_offset n then c = "-"%char else is_hex c = true)
  /\ get 14 id = Some "4"%char
  /\ (exists c, get 19 id = Some c /\ In c ["8"; "9"; "a"; "b"]%char).
Proof.
  cbv zeta. unfold genUUID.
  destruct (sixteen_bytes (fill 16 rnd) (fill_length 16 rnd))
    as (x0 & x1 & x2 & x3 & x4 & x5 & x6 & x7 & x8 & x9 & x10 & x11 & x12
        & x13 & x14 & x15 & ->).
  cbv zeta. unfold at_index.
  cbn [nth insert list_insert take drop firstn skipn].
  rewrite !fmt_x_exact by reflexivity.
  cbv [String.append EncodeToString].
  split; [reflexivity|]. split; [|split].
  - intros n c.
    do 36 (destruct n as [|n];
           [cbn [get dash_offset existsb Nat.eqb orb]; intros [= <-];
            solve [reflexivity | apply hex_digit_is_hex]|]).
    cbn [get]. discriminate.
  - cbn [get]. by rewrite version_nibble.
  - eexists. split; [reflexivity|]. apply variant_nibble.
Qed.

Lemma visible_TrimSpace (s : string) :
  forallb visible (list_ascii_of_string s) = true -> TrimSpace s = s.
Proof.
  intros Hv. destruct s as [|c s]; [reflexivity|].
  rewrite <- (string_app_nil_r (String c s)) at 1.
  change (TrimSpace ("" +:+ String c s +:+ "") = String c s).
  rewrite forallb_forall in Hv.
  apply TrimSpace_padded; try reflexivity.
  - apply is_ascii_forall, Forall_forall. intros x Hx.
    rewrite list_elem_of_In in Hx. specialize (Hv x Hx).
    unfold visible in Hv. by apply andb_prop in Hv as [H%Z.ltb_lt _].
  - exists c. split; [done|]. apply Hv. by left.
  - unfold last_byte.
    destruct (exists_last (l := list_ascii_of_string (String c s))
                ltac:(done)) as (l' & x & E).
    rewrite E, last_snoc. exists x. split; [done|].
    apply Hv. rewrite E. apply in_or_app. right. by left.
Qed.

Lemma string_of_uint_visible (d : Decimal.uint) :
  forallb visible (list_ascii_of_string (NilEmpty.string_of_uint d)) = true.
Proof.
  induction d as [|d IH|d IH|d IH|d IH|d IH|d IH|d IH|d IH|d IH|d IH];
    [done|..];
    cbn [NilEmpty.string_of_uint list_ascii_of_string forallb];
    by rewrite IH.
Qed.

Lemma format_int_visible (z : Z) :
  forallb visible (list_ascii_of_string (format_int z)) = true.
Proof.
  unfold format_int, NilZero.string_of_int, NilZero.string_of_uint.
  destruct (Z.to_int z) as [d|d]; destruct d;
    try reflexivity;
    try (cbn [list_ascii_of_string forallb];
         apply (string_of_uint_visible (_ d)) ||
         apply string_of_uint_visible).
  all: try (rewrite andb_true_iff; split; [reflexivity|];
            apply string_of_uint_visible).
Qed.

Lemma hex_string_visible (s : string) :
  forallb is_hex (list_ascii_of_string s) = true ->
  forallb visible (list_ascii_of_string s) = true.
Proof.
  rewrite !forallb_forall. intros H c Hc. by apply is_hex_visible, H.
Qed.

Lemma visible_app (a b : string) :
  forallb visible (list_ascii_of_string a) = true ->
  forallb visible (list_ascii_of_string b) = true ->
  forallb visible (list_ascii_of_string (a +:+ b)) = true.
Proof.
  intros Ha Hb. rewrite list_ascii_of_app, forallb_app. by rewrite Ha, Hb.
Qed.

(** Neither branch of [genUUID] produces white space or a byte above 7F. *)
Lemma genUUID_visible (rnd : option (list ascii)) (nano : Z) :
  forallb visible (list_ascii_of_string (genUUID rnd nano)) = true.
Proof.
  destruct rnd as [rnd|]; [|apply format_int_visible].
  destruct (genUUID_groups rnd nano)
    as (g1 & g2 & g3 & g4 & g5 & -> & _ & Hhex & _).
  repeat match goal with
         | H : Forall _ (_ :: _) |- _ =>
           apply Forall_cons in H; destruct H as [?%hex_string_visible H]
         end.
  repeat (apply visible_app; [done|]; apply visible_app; [reflexivity|]).
  done.
Qed.

(** X17: an id made by [genUUID] (either branch) comes back unchanged from
    the trimming of [sendRequest].  So for a request with such an id, a
    decoded response that carries the id, status and error text the
    dispatcher set is a success exactly when the dispatcher answered OK, and
    otherwise a ["server error"] with the dispatcher's message; it is never
    taken for a mismatched id. *)
Theorem generated_id_correlates
  (rnd : option (list ascii)) (nano : Z)
  (unicode_lower : rune -> rune) (now method timestamp : string)
  (params : option (gmap string any)) (decoded : Response.t) :
  let req := Request.mk (genUUID rnd nano) method params timestamp in
  let answer := snd (processRequest unicode_lower now req) in
  carries decoded answer ->
  TrimSpace (Request.RequestID req) = Request.RequestID req
  /\ (Response.Status answer = "OK" ->
      sendRequest (Receives decoded) req = (Some decoded, None))
  /\ (Response.Status answer = "ERROR" ->
      sendRequest (Receives decoded) req
      = (Some decoded, Some ("server error: " +:+ Response.Error answer))).
Proof.
  cbv zeta. intros (Hid & Hst & Her).
  pose proof (visible_TrimSpace _ (genUUID_visible rnd nano)) as Htrim.
  destruct (processRequest_status unicode_lower now
              (Request.mk (genUUID rnd nano) method params timestamp))
    as [Hreq _].
  rewrite Hreq in Hid. cbn [Request.RequestID] in *.
  split; [exact Htrim|].
  unfold sendRequest. cbn [Request.RequestID]. rewrite Hid, Htrim.
  rewrite String.eqb_refl. cbn [negb]. rewrite Hst, Her.
  split; intros ->; reflexivity.
Qed.

Lemma generated_id_correlates_witness :
  carries
    (Response.mk (genUUID None 1767268800000000000)
                 (AFloat64 (S754_finite false 12 0)) "OK" "")
    (snd (processRequest no_case noon
            (Request.mk (genUUID None 1767268800000000000) "add"
                        (Some {[ "a" := AInt 5; "b" := AInt 7 ]}) noon)))
  /\ sendRequest
       (Receives (Response.mk (genUUID None 1767268800000000000)
                              (AFloat64 (S754_finite false 12 0)) "OK" ""))
       (Request.mk (genUUID None 1767268800000000000) "add"
                   (Some {[ "a" := AInt 5; "b" := AInt 7 ]}) noon)
     = (Some (Response.mk (genUUID None 1767268800000000000)
                          (AFloat64 (S754_finite false 12 0)) "OK" ""),
        None).
Proof.
  assert (H : carries
    (Response.mk (genUUID None 1767268800000000000)
                 (AFloat64 (S754_finite false 12 0)) "OK" "")
    (snd (processRequest no_case noon
            (Request.mk (genUUID None 1767268800000000000) "add"
                        (Some {[ "a" := AInt 5; "b" := AInt 7 ]}) noon))))
    by (repeat split).
  split; [exact H|].
  apply (proj1 (proj2 (generated_id_correlates _ _ _ _ _ _ _ _ H))).
  reflexivity.
Defined.

(** X12: [newShortID] returns 16 lower-case hexadecimal digits when the
    random source answers, and otherwise the clock in decimal; in both cases
    a string of visible ASCII bytes. *)
Theorem newShortID_format (rnd : option (list ascii)) (nano : Z) :
  forallb visible (list_ascii_of_string (newShortID rnd nano)) = true
  /\ (forall r, rnd = Some r ->
         String.length (newShortID rnd nano) = 16%nat
         /\ forallb is_hex (list_ascii_of_string (newShortID rnd nano))
            = true)
  /\ (rnd = None -> newShortID rnd nano = format_int nano).
Proof.
  split; [|split].
  - destruct rnd as [r|]; [|apply format_int_visible].
    apply hex_string_visible, EncodeToString_hex.
  - intros r ->. cbn [newShortID]. split; [|apply EncodeToString_hex].
    by rewrite EncodeToString_length, fill_length.
  - by intros ->.
Qed.

(* ===================================================================== *)
(** ** More on one attempt of the client *)

(** X13: what [sendRequest] returns.  It never returns neither a response
    nor an error.  A response is returned only if one was decoded and its
    trimmed id is the request's id, and it is that response.  Response and
    error come together exactly when the id matches and the status is not
    the literal ["OK"]; the error text is then ["server error: "] followed
    by the error field of the response. *)
Theorem sendRequest_outcomes (net : exchange) (req : Request.t) :
  let resp := fst (sendRequest net req) in
  let err := snd (sendRequest net req) in
  (resp <> None \/ err <> None)
  /\ (forall r, resp = Some r ->
        net = Receives r
        /\ TrimSpace (Response.RequestID r) = Request.RequestID req)
  /\ (forall r e, resp = Some r -> err = Some e ->
        Response.Status r <> "OK"
        /\ e = "server error: " +:+ Response.Error r)
  /\ (forall r, net = Receives r ->
        TrimSpace (Response.RequestID r) = Request.RequestID req ->
        Response.Status r <> "OK" ->
        sendRequest net req
        = (Some r, Some ("server error: " +:+ Response.Error r))).
Proof.
  cbv zeta. destruct net as [e|e|e|e|r]; cbn [sendRequest fst snd].
  1-4: split; [by right|]; repeat split; try discriminate.
  destruct (String.eqb_spec (TrimSpace (Response.RequestID r))
                            (Request.RequestID req)) as [Hid|Hid];
    cbn [negb fst snd].
  - destruct (String.eqb_spec (Response.Status r) "OK") as [Hst|Hst];
      cbn [negb fst snd].
    + split; [by left|]. split; [by intros ? [= <-]|].
      split; [discriminate|]. by intros ? [= <-] _ Hn.
    + split; [by left|]. split; [by intros ? [= <-]|].
      split; [by intros ? ? [= <-] [= <-]|]. by intros ? [= <-] _ _.
  - split; [by right|]. split; [discriminate|].
    split; [discriminate|]. by intros ? [= <-] Hid'.
Qed.

(** X14: white space around the id does not count.  A response whose id is
    the request's id with ASCII white space (tab, line feed, vertical tab,
    form feed, carriage return, space) before and after it is accepted when
    its status is OK, for every request id of ASCII bytes that starts and
    ends with a visible one. *)
Theorem padded_id_accepted (pre post : string) (req : Request.t)
        (resp : Response.t) :
  forallb ascii_space (list_ascii_of_string pre) = true ->
  forallb ascii_space (list_ascii_of_string post) = true ->
  forallb visible (list_ascii_of_string (Request.RequestID req)) = true ->
  Request.RequestID req <> "" ->
  Response.RequestID resp = pre +:+ Request.RequestID req +:+ post ->
  Response.Status resp = "OK" ->
  sendRequest (Receives resp) req = (Some resp, None).
Proof.
  intros Hpre Hpost Hv Hne Hid Hst. cbn [sendRequest]. rewrite Hid, Hst.
  rewrite forallb_forall in Hv.
  rewrite TrimSpace_padded; try done.
  - by rewrite String.eqb_refl.
  - apply is_ascii_forall, Forall_forall. intros x Hx.
    rewrite list_elem_of_In in Hx. specialize (Hv x Hx).
    unfold visible in Hv. by apply andb_prop in Hv as [H%Z.ltb_lt _].
  - destruct (Request.RequestID req) as [|c s]; [done|].
    exists c. split; [done|]. apply Hv. by left.
  - unfold last_byte.
    destruct (Request.RequestID req) as [|c s]; [done|].
    destruct (exists_last (l := list_ascii_of_string (String c s))
                ltac:(done)) as (l' & x & E).
    rewrite E, last_snoc. exists x. split; [done|].
    apply Hv. rewrite E. apply in_or_app. right. by left.
Qed.

Lemma padded_id_accepted_witness :
  forallb ascii_space (list_ascii_of_string (bytes [0x09; 0x20])) = true
  /\ forallb ascii_space (list_ascii_of_string (bytes [0x0D; 0x0A])) = true
  /\ sendRequest
       (Receives (Response.mk (bytes [0x09; 0x20] +:+ "id-1"
                               +:+ bytes [0x0D; 0x0A])
                              (AInt 12) "OK" ""))
       (add_req (AInt 5) (AInt 7))
     = (Some (Response.mk (bytes [0x09; 0x20] +:+ "id-1"
                           +:+ bytes [0x0D; 0x0A])
                          (AInt 12) "OK" ""), None).
Proof.
  assert (H1 : forallb ascii_space (list_ascii_of_string (bytes [0x09; 0x20]))
               = true) by reflexivity.
  assert (H2 : forallb ascii_space (list_ascii_of_string (bytes [0x0D; 0x0A]))
               = true) by reflexivity.
  split; [exact H1|]. split; [exact H2|].
  apply (padded_id_accepted _ _ (add_req (AInt 5) (AInt 7)) _ H1 H2);
    solve [reflexivity | discriminate].
Defined.

(** X15: [randInt min max] returns [min] when [max <= min].  Otherwise, the
    width [max - min] fitting an [int], the result lies between [min] and
    [max] inclusive and never above [min + 255], since one random byte is
    all it draws; when the range has at most 256 values each of them is
    returned for some byte. *)
Theorem randInt_range (min max : Z) (b : ascii) :
  in_int64 min -> in_int64 max ->
  (max <= min -> randInt min max b = min)
  /\ (min < max -> max - min < max_int64 ->
      min <= randInt min max b <= max
      /\ randInt min max b <= min + 255)
  /\ (min < max -> max - min <= 255 ->
      forall v, min <= v <= max -> exists b', randInt min max b' = v).
Proof.
  intros Hmin Hmax. unfold randInt.
  assert (Hcore : forall c, min < max -> max - min < max_int64 ->
            wrap64 (min + Z.rem (byte_val c)
                                (wrap64 (wrap64 (max - min) + 1)))
            = min + byte_val c mod (max - min + 1)).
  { intros c Hlt Hw. pose proof (byte_val_range c) as Hc.
    unfold in_int64, min_int64, max_int64 in *.
    rewrite (wrap64_id (max - min))
      by (unfold in_int64, min_int64, max_int64; lia).
    rewrite (wrap64_id (max - min + 1))
      by (unfold in_int64, min_int64, max_int64; lia).
    rewrite Z.rem_mod_nonneg by lia.
    pose proof (Z.mod_pos_bound (byte_val c) (max - min + 1) ltac:(lia)).
    apply wrap64_id. unfold in_int64, min_int64, max_int64. lia. }
  split; [|split].
  - intros Hle. destruct (Z.leb_spec max min); [done|lia].
  - intros Hlt Hw. destruct (Z.leb_spec max min); [lia|].
    rewrite Hcore by done. pose proof (byte_val_range b) as Hb.
    pose proof (Z.mod_pos_bound (byte_val b) (max - min + 1) ltac:(lia)).
    pose proof (Z.mod_le (byte_val b) (max - min + 1) ltac:(lia) ltac:(lia)).
    lia.
  - intros Hlt Hw v Hv. exists (byte_of (v - min)).
    destruct (Z.leb_spec max min); [lia|].
    rewrite Hcore by (unfold max_int64; lia).
    rewrite byte_val_of by lia. rewrite Z.mod_small by lia. lia.
Qed.

Lemma randInt_range_witness :
  in_int64 0 /\ in_int64 200
  /\ 0 <= randInt 0 200 "255" <= 200.
Proof.
  assert (H0 : in_int64 0) by (unfold in_int64, min_int64, max_int64; lia).
  assert (H2 : in_int64 200) by (unfold in_int64, min_int64, max_int64; lia).
  split; [exact H0|]. split; [exact H2|].
  apply (proj1 (proj2 (randInt_range 0 200 "255" H0 H2)));
    [lia|unfold max_int64; lia].
Defined.

(* ===================================================================== *)
(** ** More on the retry loop *)

Lemma attempts_of_app (a b : list client_event) :
  attempts_of (a ++ b) = attempts_of a ++ attempts_of b.
Proof. unfold attempts_of. by rewrite flat_map_app. Qed.

Lemma total_sleep_app (a b : list client_event) :
  total_sleep (a ++ b) = total_sleep a + total_sleep b.
Proof.
  induction a as [|e a IH]; [done|].
  cbn [app total_sleep fold_right]. fold (total_sleep (a ++ b)).
  fold (total_sleep a). rewrite IH. destruct e; lia.
Qed.

Lemma failed_attempts_S (rnd : Z -> ascii) (k : Z) (n : nat) :
  failed_attempts rnd k (S n)
  = failed_attempts rnd k n
    ++ [Attempt (k + Z.of_nat n);
        Slept (retry_delay (k + Z.of_nat n) (rnd (k + Z.of_nat n)))].
Proof.
  unfold failed_attempts.
  replace (Z.of_nat (S n)) with (Z.of_nat n + 1) by lia.
  rewrite seqZ_app by lia. rewrite flat_map_app.
  by cbn [seqZ flat_map app].
Qed.

Lemma attempts_of_failed (rnd : Z -> ascii) (k : Z) (n : nat) :
  attempts_of (failed_attempts rnd k n) = seqZ k (Z.of_nat n).
Proof.
  induction n as [|n IH]; [done|].
  rewrite failed_attempts_S, attempts_of_app, IH.
  replace (Z.of_nat (S n)) with (Z.of_nat n + 1) by lia.
  by rewrite seqZ_app by lia.
Qed.

Section RetryLoopMore.

Variable maxRetries : Z.
Variable req : Request.t.
Variable net : Z -> exchange.
Variable rnd : Z -> ascii.

Local Abbreviation loop := (retry_loop maxRetries req net rnd).

Lemma retry_loop_success (fuel : nat) (k : Z) (lastErr : error)
      (resp : option Response.t) :
  k <= maxRetries ->
  sendRequest (net k) req = (resp, None) ->
  loop (S fuel) k lastErr = ([Attempt k], Printed resp).
Proof.
  intros Hk Hs. cbn [retry_loop].
  destruct (Z.leb_spec k maxRetries); [|lia]. by rewrite Hs.
Qed.

(** [n] failed attempts in a row, none of them the last value of [int]. *)
Lemma retry_loop_prefix (n : nat) :
  forall (k : Z) (fuel : nat) (lastErr : error),
    1 <= k -> k + Z.of_nat n - 1 <= maxRetries ->
    k + Z.of_nat n - 1 < max_int64 ->
    (forall j, k <= j < k + Z.of_nat n -> attempt_fails net req j) ->
    exists lastErr',
      loop (n + fuel) k lastErr
      = (failed_attempts rnd k n
           ++ fst (loop fuel (k + Z.of_nat n) lastErr'),
         snd (loop fuel (k + Z.of_nat n) lastErr')).
Proof.
  induction n as [|n IH]; intros k fuel lastErr Hk Hmax Hint Hfail.
  - exists lastErr. rewrite Z.add_0_r. cbn [failed_attempts Nat.add].
    by destruct (loop fuel k lastErr).
  - cbn [Nat.add].
    rewrite retry_loop_fail;
      [|lia|lia|unfold min_int64; lia|apply Hfail; lia].
    destruct (IH (k + 1) fuel (snd (sendRequest (net k) req)))
      as [lastErr' ->]; [lia|lia|lia|intros j Hj; apply Hfail; lia|].
    exists lastErr'. cbn [fst snd].
    replace (k + 1 + Z.of_nat n) with (k + Z.of_nat (S n)) by lia.
    f_equal. unfold failed_attempts.
    rewrite (seqZ_cons k (Z.of_nat (S n))) by lia.
    replace (Z.succ k) with (k + 1) by lia.
    replace (Z.pred (Z.of_nat (S n))) with (Z.of_nat n) by lia.
    done.
Qed.

(** What the loop does from attempt [k] on, whatever the network does. *)
Lemma retry_loop_attempts (fuel : nat) :
  forall (k : Z) (lastErr : error),
    1 <= k -> maxRetries < max_int64 ->
    maxRetries - k + 1 <= Z.of_nat fuel ->
    exists n,
      0 <= n <= Z.max 0 (maxRetries - k + 1)
      /\ attempts_of (fst (loop fuel k lastErr)) = seqZ k n
      /\ (forall e, snd (loop fuel k lastErr) = Fatal e ->
            n = Z.max 0 (maxRetries - k + 1))
      /\ (forall r, snd (loop fuel k lastErr) = Printed r ->
            1 <= n /\ sendRequest (net (k + n - 1)) req = (r, None))
      /\ snd (loop fuel k lastErr) <> Unfinished.
Proof.
  induction fuel as [|fuel IH]; intros k lastErr Hk Hmax Hfuel.
  - rewrite retry_loop_stop by lia. exists 0. cbn [fst snd attempts_of].
    repeat split; try done; lia.
  - destruct (Z.leb_spec k maxRetries) as [Hle|Hgt].
    2: { rewrite retry_loop_stop by lia. exists 0. cbn [fst snd attempts_of].
         repeat split; try done; lia. }
    destruct (sendRequest (net k) req) as [r [e|]] eqn:Hs.
    + rewrite retry_loop_fail;
        [|lia|lia|unfold min_int64; lia|unfold attempt_fails; by rewrite Hs].
      rewrite Hs. cbn [fst snd].
      destruct (IH (k + 1) (Some e) ltac:(lia) Hmax ltac:(lia))
        as (n & Hn & Hatt & Hfatal & Hprinted & Hfin).
      exists (n + 1). split; [lia|]. split.
      { cbn [attempts_of flat_map app]. fold (attempts_of
          (fst (loop fuel (k + 1) (Some e)))). rewrite Hatt.
        rewrite (seqZ_cons k (n + 1)) by lia.
        replace (Z.succ k) with (k + 1) by lia.
        replace (Z.pred (n + 1)) with n by lia. done. }
      split; [intros e' He'; specialize (Hfatal e' He'); lia|].
      split; [|done]. intros r' Hr'.
      destruct (Hprinted r' Hr') as [Hn1 Hsend]. split; [lia|].
      replace (k + (n + 1) - 1) with (k + 1 + n - 1) by lia. done.
    + rewrite (retry_loop_success fuel k lastErr r) by done.
      exists 1. cbn [fst snd attempts_of flat_map app].
      split; [lia|]. split; [done|]. split; [discriminate|].
      split; [|discriminate]. intros r' [= <-]. split; [lia|].
      replace (k + 1 - 1) with k by lia. done.
Qed.

End RetryLoopMore.

(** X18: the client stops at the first attempt that succeeds.  If the
    attempts before [k] fail and attempt [k] (at most the maximum, an
    [int]) returns no error, the client has made the attempts 1 to [k],
    slept after each of the [k - 1] failures and not after the success, and
    prints the response of attempt [k]. *)
Theorem first_success
  (maxRetries : Z) (req : Request.t) (net : Z -> exchange) (rnd : Z -> ascii)
  (k : Z) (resp : option Response.t) :
  1 <= k <= maxRetries ->
  maxRetries <= max_int64 ->
  (forall j, 1 <= j < k -> attempt_fails net req j) ->
  sendRequest (net k) req = (resp, None) ->
  client_main maxRetries req net rnd
  = (failed_attempts rnd 1 (Z.to_nat (k - 1)) ++ [Attempt k], Printed resp)
  /\ attempts_of (fst (client_main maxRetries req net rnd)) = seqZ 1 k
  /\ total_sleep (fst (client_main maxRetries req net rnd))
     = total_sleep (failed_attempts rnd 1 (Z.to_nat (k - 1))).
Proof.
  intros Hk Hmax Hfail Hs. unfold client_main.
  replace (Z.to_nat maxRetries)
    with (Z.to_nat (k - 1) + S (Z.to_nat (maxRetries - k)))%nat by lia.
  destruct (retry_loop_prefix maxRetries req net rnd (Z.to_nat (k - 1)) 1
              (S (Z.to_nat (maxRetries - k))) None)
    as [lastErr' ->]; [lia|lia|lia|intros j Hj; apply Hfail; lia|].
  replace (1 + Z.of_nat (Z.to_nat (k - 1))) with k by lia.
  rewrite (retry_loop_success maxRetries req net rnd _ k lastErr' resp)
    by (lia || done).
  cbn [fst snd]. split; [done|]. split.
  - rewrite attempts_of_app, attempts_of_failed.
    cbn [attempts_of flat_map app]. rewrite Z2Nat.id by lia.
    replace (seqZ 1 k) with (seqZ 1 (k - 1 + 1)) by (f_equal; lia).
    rewrite seqZ_app by lia. f_equal.
    replace (1 + (k - 1)) with k by lia. done.
  - rewrite total_sleep_app. cbn [total_sleep fold_right]. lia.
Qed.

Lemma first_success_witness :
  1 <= 2 <= 3
  /\ 3 <= max_int64
  /\ client_main 3 (add_req (AInt 5) (AInt 7))
       (fun k => if k =? 2
                 then Receives (Response.mk "id-1" (AInt 12) "OK" "")
                 else DialFails "connection refused")
       (fun _ => "000"%char)
     = (failed_attempts (fun _ => "000"%char) 1 (Z.to_nat (2 - 1))
          ++ [Attempt 2],
        Printed (Some (Response.mk "id-1" (AInt 12) "OK" ""))).
Proof.
  assert (H1 : 1 <= 2 <= 3) by lia.
  assert (H2 : 3 <= max_int64) by (unfold max_int64; lia).
  split; [exact H1|]. split; [exact H2|].
  apply (first_success 3 (add_req (AInt 5) (AInt 7)) _ _ 2 _ H1 H2).
  - intros j Hj. assert (j = 1) as -> by lia. discriminate.
  - reflexivity.
Defined.

(** X19: whatever the network does, with a maximum below the last value of
    [int] the loop ends, and the attempts made are numbered 1, 2, ... without
    a gap and are at most the maximum (none at all for a maximum of 0 or
    less).  When the program ends with ["All attempts failed"] their number
    is the maximum; when it prints a response, the last attempt made is the
    one that returned it without error. *)
Theorem attempts_are_bounded
  (maxRetries : Z) (req : Request.t) (net : Z -> exchange)
  (rnd : Z -> ascii) :
  maxRetries < max_int64 ->
  let run := client_main maxRetries req net rnd in
  exists n,
    0 <= n <= Z.max 0 maxRetries
    /\ attempts_of (fst run) = seqZ 1 n
    /\ (forall e, snd run = Fatal e -> n = Z.max 0 maxRetries)
    /\ (forall r, snd run = Printed r ->
          1 <= n /\ sendRequest (net n) req = (r, None))
    /\ snd run <> Unfinished.
Proof.
  intros Hmax. cbv zeta. unfold client_main.
  destruct (retry_loop_attempts maxRetries req net rnd
              (Z.to_nat maxRetries) 1 None ltac:(lia) Hmax ltac:(lia))
    as (n & Hn & Hatt & Hfatal & Hprinted & Hfin).
  exists n. replace (maxRetries - 1 + 1) with maxRetries in * by lia.
  split; [done|]. split; [done|]. split; [done|]. split; [|done].
  intros r Hr. destruct (Hprinted r Hr) as [H1 H2]. split; [done|].
  replace (1 + n - 1) with n in H2 by lia. done.
Qed.

Lemma attempts_are_bounded_witness :
  (4 < max_int64
   /\ exists n,
        0 <= n <= Z.max 0 4
        /\ attempts_of
             (fst (client_main 4 (add_req (AInt 5) (AInt 7))
                     (fun k => if k =? 3
                               then Receives
                                      (Response.mk "id-1" (AInt 12) "OK" "")
                               else DialFails "connection refused")
                     (fun _ => "000"%char)))
           = seqZ 1 n
        /\ 1 <= n
        /\ sendRequest
             (if n =? 3
              then Receives (Response.mk "id-1" (AInt 12) "OK" "")
              else DialFails "connection refused")
             (add_req (AInt 5) (AInt 7))
           = (Some (Response.mk "id-1" (AInt 12) "OK" ""), None))
  /\ (2 < max_int64
      /\ exists n,
           n = Z.max 0 2
           /\ attempts_of
                (fst (client_main 2 (slow_req (AInt 5))
                        (fun _ => ReceiveFails "i/o timeout")
                        (fun _ => "123"%char)))
              = seqZ 1 n
           /\ snd (client_main 2 (slow_req (AInt 5))
                     (fun _ => ReceiveFails "i/o timeout")
                     (fun _ => "123"%char))
              <> Unfinished).
Proof.
  assert (H4 : 4 < max_int64) by reflexivity.
  assert (H2 : 2 < max_int64) by reflexivity.
  split.
  - split; [exact H4|].
    pose proof (attempts_are_bounded 4 (add_req (AInt 5) (AInt 7))
                  (fun k => if k =? 3
                            then Receives
                                   (Response.mk "id-1" (AInt 12) "OK" "")
                            else DialFails "connection refused")
                  (fun _ => "000"%char) H4) as T.
    cbv zeta in T. destruct T as (n & Hn & Hatt & _ & Hprinted & _).
    exists n. split; [exact Hn|]. split; [exact Hatt|].
    exact (Hprinted (Some (Response.mk "id-1" (AInt 12) "OK" "")) eq_refl).
  - split; [exact H2|].
    pose proof (attempts_are_bounded 2 (slow_req (AInt 5))
                  (fun _ => ReceiveFails "i/o timeout")
                  (fun _ => "123"%char) H2) as T.
    cbv zeta in T. destruct T as (n & _ & Hatt & Hfatal & _ & Hfin).
    exists n. split; [|split; [exact Hatt|exact Hfin]].
    exact (Hfatal (Some "decode/receive: i/o timeout") eq_refl).
Defined.

Lemma total_sleep_failed_bounds (rnd : Z -> ascii) (n : nat) :
  (n <= 36)%nat ->
  base_delay * (2 ^ Z.of_nat n - 1) <= total_sleep (failed_attempts rnd 1 n)
  /\ total_sleep (failed_attempts rnd 1 n)
     <= base_delay * (2 ^ Z.of_nat n - 1) + Z.of_nat n * jitter_bound.
Proof.
  induction n as [|n IH]; intros Hn; [done|].
  specialize (IH ltac:(lia)).
  rewrite failed_attempts_S, total_sleep_app.
  cbn [total_sleep fold_right].
  rewrite retry_delay_exact by lia.
  replace (1 + Z.of_nat n - 1) with (Z.of_nat n) by lia.
  replace (Z.of_nat (S n)) with (Z.succ (Z.of_nat n)) by lia.
  rewrite Z.pow_succ_r by lia.
  pose proof (Z.mod_pos_bound (byte_val (rnd (1 + Z.of_nat n))) 201
                ltac:(lia)).
  pose proof (Z.pow_pos_nonneg 2 (Z.of_nat n) ltac:(lia) ltac:(lia)).
  unfold base_delay, jitter_bound, Millisecond in *. lia.
Qed.

Lemma client_main_all_fail
  (maxRetries : Z) (req : Request.t) (net : Z -> exchange)
  (rnd : Z -> ascii) :
  1 <= maxRetries < max_int64 ->
  (forall j, 1 <= j <= maxRetries -> attempt_fails net req j) ->
  client_main maxRetries req net rnd
  = (failed_attempts rnd 1 (Z.to_nat maxRetries),
     Fatal (snd (sendRequest (net maxRetries) req))).
Proof.
  intros Hmax Hfail. unfold client_main.
  rewrite (retry_loop_failures maxRetries req net rnd (Z.to_nat maxRetries)
             1 (Z.to_nat maxRetries) None);
    [|lia|lia|lia|lia|intros j Hj; apply Hfail; lia].
  rewrite !retry_loop_stop by lia. cbn [fst snd]. rewrite app_nil_r.
  destruct (Z.to_nat maxRetries) as [|m] eqn:Hm; [lia|].
  replace (1 + Z.of_nat (S m) - 1) with maxRetries by lia. done.
Qed.

(** X20: how long the client waits before it gives up.  When all of a
    maximum of [n] attempts fail, [n] at most 36, the delays it sleeps add
    up to at least [base_delay * (2^n - 1)] and at most that plus [n] times
    the jitter bound (for the default of 3 attempts: between 1.4 and 2.0
    seconds), and the program ends with the error of the last attempt. *)
Theorem exhaustion_sleep_bounds
  (maxRetries : Z) (req : Request.t) (net : Z -> exchange)
  (rnd : Z -> ascii) :
  1 <= maxRetries <= 36 ->
  (forall j, 1 <= j <= maxRetries -> attempt_fails net req j) ->
  let run := client_main maxRetries req net rnd in
  snd run = Fatal (snd (sendRequest (net maxRetries) req))
  /\ base_delay * (2 ^ maxRetries - 1) <= total_sleep (fst run)
  /\ total_sleep (fst run)
     <= base_delay * (2 ^ maxRetries - 1) + maxRetries * jitter_bound.
Proof.
  intros Hmax Hfail. cbv zeta.
  rewrite client_main_all_fail by (unfold max_int64; lia || done).
  cbn [fst snd]. split; [done|].
  pose proof (total_sleep_failed_bounds rnd (Z.to_nat maxRetries)
                ltac:(lia)) as H.
  rewrite Z2Nat.id in H by lia. exact H.
Qed.

Lemma exhaustion_sleep_bounds_witness :
  1 <= 3 <= 36
  /\ (forall j, 1 <= j <= 3 ->
        attempt_fails (fun _ => ReceiveFails "i/o timeout")
                      (slow_req (AInt 5)) j)
  /\ 1400 * Millisecond
     <= total_sleep (fst (client_main 3 (slow_req (AInt 5))
                            (fun _ => ReceiveFails "i/o timeout")
                            (fun _ => "123"%char)))
     <= 2000 * Millisecond.
Proof.
  assert (H1 : 1 <= 3 <= 36) by lia.
  assert (H2 : forall j, 1 <= j <= 3 ->
                 attempt_fails (fun _ => ReceiveFails "i/o timeout")
                               (slow_req (AInt 5)) j)
    by (intros j _; discriminate).
  split; [exact H1|]. split; [exact H2|].
  destruct (exhaustion_sleep_bounds 3 (slow_req (AInt 5))
              (fun _ => ReceiveFails "i/o timeout") (fun _ => "123"%char)
              H1 H2) as (_ & Hlo & Hhi).
  split; [exact Hlo|exact Hhi].
Defined.

(** X21: the fixed part of the delay starts at the base delay and doubles
    with every attempt up to attempt 36; from attempt 56 on the 64-bit
    product has lost all its bits and the fixed part is 0, the jitter
    being all that is left. *)
Theorem backoff_doubles (k : Z) :
  (1 <= k <= 35 ->
   backoff 1 = base_delay /\ backoff (k + 1) = 2 * backoff k
   /\ 0 < backoff k)
  /\ (56 <= k <= max_int64 -> backoff k = 0).
Proof.
  split.
  - intros Hk. split; [reflexivity|].
    rewrite !backoff_exact by lia.
    replace (k + 1 - 1) with (Z.succ (k - 1)) by lia.
    rewrite Z.pow_succ_r by lia.
    pose proof (Z.pow_pos_nonneg 2 (k - 1) ltac:(lia) ltac:(lia)).
    unfold base_delay, Millisecond. lia.
  - intros Hk. unfold backoff, to_uint64.
    rewrite (wrap64_id (k - 1))
      by (unfold in_int64, min_int64, max_int64 in *; lia).
    rewrite Z.mod_small by (unfold max_int64 in *; lia).
    unfold shl64.
    destruct (Z.ltb_spec (k - 1) 64) as [Hlt|Hge]; [|reflexivity].
    assert (Hc : In k [56; 57; 58; 59; 60; 61; 62; 63; 64])
      by (cbn [In]; lia).
    cbn [In] in Hc.
    repeat (destruct Hc as [<-|Hc]; [reflexivity|]).
    contradiction.
Qed.

Lemma backoff_doubles_witness :
  (1 <= 3 <= 35 /\ backoff (3 + 1) = 2 * backoff 3)
  /\ (56 <= 56 <= max_int64 /\ backoff 56 = 0).
Proof.
  assert (H : 1 <= 3 <= 35) by lia.
  assert (H' : 56 <= 56 <= max_int64) by (unfold max_int64; lia).
  split.
  - exact (conj H (proj1 (proj2 (proj1 (backoff_doubles 3) H)))).
  - exact (conj H' (proj2 (backoff_doubles 56) H')).
Defined.

(** X22: an error answer of the server is retried like a failed connection.
    When the dispatcher answers a request with status ERROR (an unknown
    method, say), the request id being one trimming leaves alone, and every
    attempt decodes a response carrying that id, status and error text, the
    client makes all its attempts, sleeping after each, and ends with
    ["server error: "] followed by the dispatcher's message. *)
Theorem application_error_retried
  (unicode_lower : rune -> rune) (now : string)
  (maxRetries : Z) (req : Request.t) (net : Z -> exchange)
  (rnd : Z -> ascii) :
  1 <= maxRetries < max_int64 ->
  TrimSpace (Request.RequestID req) = Request.RequestID req ->
  Response.Status (snd (processRequest unicode_lower now req)) = "ERROR" ->
  (forall k, 1 <= k <= maxRetries ->
     exists decoded,
       net k = Receives decoded
       /\ carries decoded (snd (processRequest unicode_lower now req))) ->
  client_main maxRetries req net rnd
  = (failed_attempts rnd 1 (Z.to_nat maxRetries),
     Fatal (Some ("server error: "
                  +:+ Response.Error
                        (snd (processRequest unicode_lower now req))))).
Proof.
  intros Hmax Htrim Herr Hnet.
  destruct (processRequest_status unicode_lower now req) as [Hreq _].
  assert (Hsend : forall k, 1 <= k <= maxRetries ->
            snd (sendRequest (net k) req)
            = Some ("server error: "
                    +:+ Response.Error
                          (snd (processRequest unicode_lower now req)))).
  { intros k Hk. destruct (Hnet k Hk) as (d & -> & Hid & Hst & Her).
    cbn [sendRequest]. rewrite Hid, Hreq, Htrim, String.eqb_refl.
    cbn [negb]. rewrite Hst, Herr, Her. reflexivity. }
  rewrite client_main_all_fail; [|done|].
  - by rewrite Hsend by lia.
  - intros j Hj. unfold attempt_fails. by rewrite Hsend.
Qed.

Lemma application_error_retried_witness :
  1 <= 2 < max_int64
  /\ client_main 2 (call "multiply" None)
       (fun _ => Receives
          (Response.mk (Request.RequestID (call "multiply" None)) ANil
                       "ERROR" "unknown method 'multiply'"))
       (fun _ => "000"%char)
     = (failed_attempts (fun _ => "000"%char) 1 (Z.to_nat 2),
        Fatal (Some ("server error: "
                     +:+ Response.Error
                           (snd (processRequest no_case noon
                                   (call "multiply" None)))))).
Proof.
  assert (H : 1 <= 2 < max_int64) by (unfold max_int64; lia).
  split; [exact H|].
  apply (application_error_retried no_case noon 2 (call "multiply" None)
           _ _ H); [reflexivity|reflexivity|].
  intros k _. eexists. split; [reflexivity|]. repeat split.
Defined.

(* ===================================================================== *)
(** ** Methods that cannot fail *)

(** X23: [get_time], [slow] and [echo] answer OK whatever the params are
    (missing, null, or of any shape): [get_time] with the clock, [echo] with
    the params as they came, a nil map included.  Only [add] and
    [reverse_string] look at their params and can answer ERROR, and with
    them and an unknown method the error text is never empty. *)
Theorem methods_that_cannot_fail
  (unicode_lower : rune -> rune) (now : string) (req : Request.t) :
  let answer := snd (processRequest unicode_lower now req) in
  (ToLower unicode_lower (Request.Method req) = "get_time" ->
   answer = Response.mk (Request.RequestID req) (AString now) "OK" "")
  /\ (ToLower unicode_lower (Request.Method req) = "echo" ->
      answer = Response.mk (Request.RequestID req)
                           (AMap (Request.Params req)) "OK" "")
  /\ (ToLower unicode_lower (Request.Method req) = "slow" ->
      Response.Status answer = "OK")
  /\ (Response.Status answer = "ERROR" ->
      Response.Error answer <> ""
      /\ ~ In (ToLower unicode_lower (Request.Method req))
              ["get_time"; "slow"; "echo"]).
Proof.
  cbv zeta. split; [|split; [|split]].
  - intros Hm. unfold processRequest. by rewrite Hm.
  - intros Hm. unfold processRequest. by rewrite Hm.
  - intros Hm. by rewrite processRequest_slow.
  - intros Herr.
    destruct (processRequest_status unicode_lower now req)
      as [_ [(Hok & _)|(_ & Hmsg & _)]].
    { rewrite Hok in Herr. discriminate Herr. }
    split; [exact Hmsg|]. cbn [In]. intros [Hm|[Hm|[Hm|[]]]];
      symmetry in Hm; revert Herr; unfold processRequest; rewrite Hm;
      discriminate.
Qed.

(* ===================================================================== *)
(** ** Integers written in decimal and read back *)

Lemma parse_digits_uint (d : Decimal.uint) (acc : Z) :
  parse_digits (NilEmpty.string_of_uint d) acc = Some (uint_value d acc).
Proof.
  revert acc.
  induction d as [|d IH|d IH|d IH|d IH|d IH|d IH|d IH|d IH|d IH|d IH];
    intros acc; [done|..];
    cbn [NilEmpty.string_of_uint parse_digits uint_value]; apply IH.
Qed.

Lemma uint_value_acc (d : Decimal.uint) (acc : positive) :
  uint_value d (Z.pos acc) = Z.pos (Pos.of_uint_acc d acc).
Proof.
  revert acc.
  induction d as [|d IH|d IH|d IH|d IH|d IH|d IH|d IH|d IH|d IH|d IH];
    intros acc; [done|..];
    cbn [uint_value Pos.of_uint_acc]; rewrite <- IH; f_equal; lia.
Qed.

Lemma uint_value_0 (d : Decimal.uint) :
  uint_value d 0 = Z.of_N (Pos.of_uint d).
Proof.
  induction d as [|d IH|d IH|d IH|d IH|d IH|d IH|d IH|d IH|d IH|d IH];
    [done|exact IH|..];
    cbn [uint_value Pos.of_uint Z.of_N]; rewrite <- uint_value_acc;
    f_equal.
Qed.

Lemma uint_value_to_uint (p : positive) :
  uint_value (Pos.to_uint p) 0 = Z.pos p.
Proof. by rewrite uint_value_0, DecimalPos.Unsigned.of_to. Qed.

Lemma string_of_uint_first (d : Decimal.uint) :
  d <> Decimal.Nil ->
  exists c s, NilEmpty.string_of_uint d = String c s
              /\ is_digit (byte_val c) = true.
Proof.
  destruct d; [done|..]; intros _; by eexists _, _.
Qed.

(** [Atoi] reads back what [%d] writes. *)
Lemma Atoi_format_int (z : Z) : in_int64 z -> Atoi (format_int z) = Some z.
Proof.
  intros Hz. unfold format_int. destruct z as [|p|p]; [reflexivity|..].
  - cbn [Z.to_int NilZero.string_of_int]. unfold NilZero.string_of_uint.
    pose proof (DecimalPos.Unsigned.to_uint_nonnil p) as Hnn.
    pose proof (parse_digits_uint (Pos.to_uint p) 0) as Hp.
    rewrite uint_value_to_uint in Hp.
    destruct (string_of_uint_first _ Hnn) as (c & s & E & Hc).
    destruct (Pos.to_uint p) eqn:Ed; [done|..]; rewrite <- Ed in *;
      rewrite E in *; unfold Atoi.
    all: assert (Hm : Ascii.eqb c "-" = false)
           by (apply Ascii.eqb_neq; intros ->; discriminate Hc).
    all: assert (Hpl : Ascii.eqb c "+" = false)
           by (apply Ascii.eqb_neq; intros ->; discriminate Hc).
    all: rewrite Hm, Hpl; cbn [orb]; rewrite Hp;
         by rewrite in_int64b_true.
  - cbn [Z.to_int NilZero.string_of_int]. unfold NilZero.string_of_uint.
    pose proof (DecimalPos.Unsigned.to_uint_nonnil p) as Hnn.
    pose proof (parse_digits_uint (Pos.to_uint p) 0) as Hp.
    rewrite uint_value_to_uint in Hp.
    destruct (string_of_uint_first _ Hnn) as (c & s & E & Hc).
    destruct (Pos.to_uint p) eqn:Ed; [done|..]; rewrite <- Ed in *;
      rewrite E in *; unfold Atoi.
    all: change (Ascii.eqb "-" "-") with true; cbn [orb]; rewrite Hp.
    all: change (- Z.pos p) with (Z.neg p); by rewrite in_int64b_true.
Qed.

(** X24: an integer sent as a decimal string is read as that integer.  For
    every [z] in the range of [int], [asInt] reads the string [%d] writes
    for [z] as [z]; [slow] with [sleep] set to that string sleeps [z]
    seconds and answers with the text ["slept z seconds"]; and [add] reads
    two such strings as the integers they denote. *)
Theorem decimal_strings_read_back
  (unicode_lower : rune -> rune) (now : string) (req : Request.t) (z : Z) :
  in_int64 z ->
  asInt (AString (format_int z)) = (z, None)
  /\ (ToLower unicode_lower (Request.Method req) = "slow" ->
      param (Request.Params req) "sleep" = Some (AString (format_int z)) ->
      processRequest unicode_lower now req
      = ([TimeSleep (wrap64 (z * Second))],
         Response.mk (Request.RequestID req)
           (AString ("slept " +:+ format_int z +:+ " seconds")) "OK" ""))
  /\ (forall y,
         in_int64 y ->
         ToLower unicode_lower (Request.Method req) = "add" ->
         param (Request.Params req) "a" = Some (AString (format_int z)) ->
         param (Request.Params req) "b" = Some (AString (format_int y)) ->
         snd (processRequest unicode_lower now req)
         = Response.mk (Request.RequestID req) (AInt (wrap64 (z + y)))
                       "OK" "").
Proof.
  intros Hz. split; [|split].
  - cbn [asInt]. by rewrite Atoi_format_int.
  - intros Hm Hs. rewrite processRequest_slow by done.
    unfold slow_secs. by rewrite Hs, Atoi_format_int.
  - intros y Hy Hm Ha Hb. rewrite processRequest_add by done.
    rewrite (getTwoInts_coercible _ _ _ _ _ z y Ha Hb);
      [done|apply coerce_string; by apply Atoi_format_int..].
Qed.

Lemma decimal_strings_read_back_witness :
  in_int64 (-42)
  /\ asInt (AString (format_int (-42))) = (-42, None).
Proof.
  assert (H : in_int64 (-42)) by (unfold in_int64, min_int64, max_int64; lia).
  split; [exact H|].
  exact (proj1 (decimal_strings_read_back no_case noon (call "slow" None)
                  (-42) H)).
Defined.
